(** * Subpicture management of the video output (vout_subpictures.c)

    A shallow embedding of the subpicture heap (allocation, display,
    destruction), of the selection of the subpictures to show at a display
    date, and of the SPU renderer, with the properties of the specification
    stated and proved against it. *)

From Stdlib Require Import ZArith Lia Bool.
From stdpp Require Import base option list.

Local Open Scope Z_scope.

(** ** C integers *)

(** [int] is 32 bits wide; arithmetic that leaves the range wraps around
    (two's complement), which is what the compiled code does. *)
Module Int.
Definition min_signed : Z := - 2 ^ 31.
Definition max_signed : Z := 2 ^ 31 - 1.
Definition in_range (z : Z) : Prop := min_signed <= z <= max_signed.
Definition wrap (z : Z) : Z := (z + 2 ^ 31) mod 2 ^ 32 - 2 ^ 31.
Definition add (a b : Z) : Z := wrap (a + b).
Definition sub (a b : Z) : Z := wrap (a - b).
Definition mul (a b : Z) : Z := wrap (a * b).
Definition shl (a n : Z) : Z := wrap (Z.shiftl a n).
Definition shr (a n : Z) : Z := Z.shiftr a n.
(** C division truncates towards zero. *)
Definition div (a b : Z) : Z := wrap (Z.quot a b).
End Int.

(** ** Data model *)

(** Modelled from the spec: the status constants of video.h, which is not
    part of the sources at hand ([status]: one of Free, Reserved, Ready,
    Destroyed). *)
Inductive subpicture_status : Set :=
| FREE_SUBPICTURE
| RESERVED_SUBPICTURE
| READY_SUBPICTURE
| DESTROYED_SUBPICTURE.

(** Modelled from the spec: the type constants of video.h ([kind]: Text,
    RLE overlay, Empty).  [i_type] is an [int] handed in by the caller, so
    any other value is possible as well; [OTHER_SUBPICTURE] stands for those. *)
Inductive subpicture_type : Set :=
| EMPTY_SUBPICTURE
| DVD_SUBPICTURE
| TEXT_SUBPICTURE
| OTHER_SUBPICTURE (code : Z).

#[global] Instance subpicture_status_eq_dec : EqDecision subpicture_status.
Proof. solve_decision. Defined.

#[global] Instance subpicture_type_eq_dec : EqDecision subpicture_type.
Proof. solve_decision. Defined.

(** A block returned by [memalign]: its address and its contents, seen as the
    renderer sees them, through a [u16 *]. *)
Record buffer : Set := Buffer { buf_base : Z; buf_words : list Z }.

(** [subpicture_t]. A pointer to a subpicture is the index of its slot in
    [p_subpicture]; [NULL] is [None]. The dates are [mtime_t], 64 bits wide;
    the code compares them and computes nothing with them. *)
Record subpicture_t : Set := Subpicture {
  i_type : subpicture_type;
  i_status : subpicture_status;
  i_size : Z;
  p_next : option nat;
  i_start : Z;
  i_stop : Z;
  b_ephemer : bool;
  i_x : Z;
  i_y : Z;
  i_width : Z;
  i_height : Z;
  p_data : option buffer
}.

Definition set_status (st : subpicture_status) (s : subpicture_t) : subpicture_t :=
  Subpicture (i_type s) st (i_size s) (p_next s) (i_start s) (i_stop s)
    (b_ephemer s) (i_x s) (i_y s) (i_width s) (i_height s) (p_data s).

Definition set_next (n : option nat) (s : subpicture_t) : subpicture_t :=
  Subpicture (i_type s) (i_status s) (i_size s) n (i_start s) (i_stop s)
    (b_ephemer s) (i_x s) (i_y s) (i_width s) (i_height s) (p_data s).

Definition set_y (y : Z) (s : subpicture_t) : subpicture_t :=
  Subpicture (i_type s) (i_status s) (i_size s) (p_next s) (i_start s) (i_stop s)
    (b_ephemer s) (i_x s) y (i_width s) (i_height s) (p_data s).

Definition set_data (d : option buffer) (s : subpicture_t) : subpicture_t :=
  Subpicture (i_type s) (i_status s) (i_size s) (p_next s) (i_start s) (i_stop s)
    (b_ephemer s) (i_x s) (i_y s) (i_width s) (i_height s) d.

Definition set_type (t : subpicture_type) (s : subpicture_t) : subpicture_t :=
  Subpicture t (i_status s) (i_size s) (p_next s) (i_start s) (i_stop s)
    (b_ephemer s) (i_x s) (i_y s) (i_width s) (i_height s) (p_data s).

(** The block of assignments at the end of a successful allocation. *)
Definition set_defaults (t : subpicture_type) (size : Z) (s : subpicture_t) : subpicture_t :=
  Subpicture t RESERVED_SUBPICTURE size (p_next s) (i_start s) (i_stop s)
    (b_ephemer s) 0 0 0 0 (p_data s).

(** Modelled from the spec: the chroma codes, whose header is not part of the
    sources at hand (planar YUV 4:2:0 family, packed 16-bit RGB, others). *)
Inductive fourcc : Set :=
| FOURCC_I420
| FOURCC_IYUV
| FOURCC_YV12
| FOURCC_RV16
| FOURCC_other (code : Z).

Module Output.
Record t : Set := mk { i_width : Z; i_height : Z; i_chroma : fourcc }.
End Output.

Module Render.
Record t : Set := mk { i_width : Z; i_height : Z }.
End Render.

(** The part of [vout_thread_t] that the functions of this file use. The
    length of [p_subpicture] is VOUT_MAX_SUBPICTURES. *)
Record vout_thread_t : Set := Vout {
  output : Output.t;
  render : Render.t;
  p_subpicture : list subpicture_t
}.

(** What a call does besides changing the heap: messages, the lock and the
    C allocator. *)
Inductive event : Set :=
| Lock
| Unlock
| ErrInvalidStatus (st : subpicture_status)
| ErrHeapFull
| ErrUnknownType (t : subpicture_type)
| ErrAllocFailed
| ErrUnknownSubpicture (t : subpicture_type)
| ErrUnknownChroma
| Free (b : option buffer)
| Memalign (align size : Z).

(** ** vout_DisplaySubPicture *)

(** [i_margin] is the value main_GetIntVariable returns for the SPU margin. *)
Definition vout_DisplaySubPicture (i_margin : Z) (p_vout : vout_thread_t)
    (p_subpic : subpicture_t) : subpicture_t * list event :=
  let msgs :=
    if decide (i_status p_subpic = RESERVED_SUBPICTURE) then []
    else [ErrInvalidStatus (i_status p_subpic)] in
  let placed :=
    if i_margin >=? 0 then
      if Int.add (i_height p_subpic) i_margin <=? Output.i_height (output p_vout) then
        set_y (Int.sub (Int.sub (Output.i_height (output p_vout)) i_margin)
                       (i_height p_subpic)) p_subpic
      else p_subpic
    else p_subpic in
  (set_status READY_SUBPICTURE placed, msgs).

(** ** vout_DestroySubPicture *)

Definition vout_DestroySubPicture (p_subpic : subpicture_t) : subpicture_t * list event :=
  let msgs :=
    if decide (i_status p_subpic = RESERVED_SUBPICTURE) then []
    else if decide (i_status p_subpic = READY_SUBPICTURE) then []
    else [ErrInvalidStatus (i_status p_subpic)] in
  (set_status DESTROYED_SUBPICTURE p_subpic, msgs).

(** ** vout_CreateSubPicture *)

(** How the loop over the heap ends: with a destroyed subpicture of the right
    type and size, or at the end of the heap with the first free and the first
    destroyed subpicture it met. *)
Inductive place : Set :=
| Reuse (i_subpic : nat)
| Scanned (p_free_subpic p_destroyed_subpic : option nat).

Fixpoint look_for_place (type : subpicture_type) (size : Z)
    (slots : list subpicture_t) (i_subpic : nat)
    (p_free_subpic p_destroyed_subpic : option nat) : place :=
  match slots with
  | [] => Scanned p_free_subpic p_destroyed_subpic
  | s :: rest =>
      if decide (i_status s = DESTROYED_SUBPICTURE) then
        if bool_decide (i_type s = type) && (i_size s >=? size) then
          Reuse i_subpic
        else if p_destroyed_subpic is None then
          look_for_place type size rest (S i_subpic) p_free_subpic (Some i_subpic)
        else
          look_for_place type size rest (S i_subpic) p_free_subpic p_destroyed_subpic
      else if (if p_free_subpic is None then true else false)
              && bool_decide (i_status s = FREE_SUBPICTURE) then
        look_for_place type size rest (S i_subpic) (Some i_subpic) p_destroyed_subpic
      else
        look_for_place type size rest (S i_subpic) p_free_subpic p_destroyed_subpic
  end.

(** The result of a call: the subpicture returned ([None] is the null
    pointer), the heap afterwards and what happened on the way. *)
Record created : Set := Created {
  cr_result : option nat;
  cr_heap : list subpicture_t;
  cr_events : list event
}.

(** [memalign align size] is what the allocator answers to the one request a
    call can make. *)
Definition vout_CreateSubPicture (memalign : Z → Z → option buffer)
    (heap : list subpicture_t) (type : subpicture_type) (size : Z) : created :=
  match look_for_place type size heap 0 None None with
  | Reuse i =>
      Created (Some i) (alter (set_status RESERVED_SUBPICTURE) i heap) [Lock; Unlock]
  | Scanned p_free_subpic p_destroyed_subpic =>
      (* If no free subpictures are available, use a destroyed subpicture *)
      let '(p_free_subpic, freed) :=
        match p_free_subpic, p_destroyed_subpic with
        | None, Some d => (Some d, [Free (heap !! d ≫= p_data)])
        | _, _ => (p_free_subpic, [])
        end in
      match p_free_subpic with
      | None => Created None heap ([Lock] ++ freed ++ [ErrHeapFull; Unlock])
      | Some f =>
          (* Prepare subpicture *)
          let '(data, asked) :=
            match type with
            | TEXT_SUBPICTURE =>
                (memalign 16 (Int.add size 1), [Memalign 16 (Int.add size 1)])
            | DVD_SUBPICTURE => (memalign 16 size, [Memalign 16 size])
            | _ => (None, [ErrUnknownType type])
            end in
          match data with
          | Some b =>
              Created (Some f)
                (alter (λ s, set_defaults type size (set_data (Some b) s)) f heap)
                ([Lock] ++ freed ++ asked ++ [Unlock])
          | None =>
              Created None
                (alter (λ s, set_status FREE_SUBPICTURE
                               (set_type EMPTY_SUBPICTURE (set_data None s))) f heap)
                ([Lock] ++ freed ++ asked ++ [ErrAllocFailed; Unlock])
          end
      end
  end.

(** ** vout_SortSubPictures *)

(** The local variables of the function, the heap and the messages so far. *)
Record sort_state : Set := SortState {
  st_heap : list subpicture_t;
  p_subpic : option nat;
  p_ephemer : option nat;
  ephemer_date : Z;
  st_events : list event
}.

(** [if( !ephemer_date || ephemer_date > start ) ephemer_date = start;] *)
Definition register_date (start date : Z) : Z :=
  if (date =? 0) || (date >? start) then start else date.

(** Calls [vout_DestroySubPicture] on the subpicture at [i]. *)
Definition destroy_at (i : nat) (st : sort_state) : sort_state :=
  match st_heap st !! i with
  | Some s =>
      SortState (<[i := (vout_DestroySubPicture s).1]> (st_heap st))
        (p_subpic st) (p_ephemer st) (ephemer_date st)
        (st_events st ++ (vout_DestroySubPicture s).2)
  | None => st
  end.

(** Puts the subpicture at [i] in front of the list. *)
Definition link_at (i : nat) (st : sort_state) : sort_state :=
  SortState (alter (set_next (p_subpic st)) i (st_heap st))
    (Some i) (p_ephemer st) (ephemer_date st) (st_events st).

(** Registers the date of the head of the list. *)
Definition register_head (st : sort_state) : sort_state :=
  match p_subpic st ≫= (st_heap st !!.) with
  | Some h =>
      SortState (st_heap st) (p_subpic st) (p_ephemer st)
        (register_date (i_start h) (ephemer_date st)) (st_events st)
  | None => st
  end.

(** One turn of the loop over the heap. *)
Definition sort_body (display_date : Z) (i_index : nat) (st : sort_state) : sort_state :=
  match st_heap st !! i_index with
  | None => st
  | Some s =>
      if decide (i_status s = READY_SUBPICTURE) then
        if decide (i_type s = DVD_SUBPICTURE) then
          if display_date >? i_stop s then destroy_at i_index st
          else if display_date <? i_start s then st
          else
            let linked := register_head (link_at i_index st) in
            if b_ephemer s then
              match p_ephemer st with
              | None =>
                  SortState (st_heap st) (p_subpic st) (Some i_index)
                    (ephemer_date st) (st_events st)
              | Some e =>
                  match st_heap st !! e with
                  | Some old =>
                      if i_start s <? i_start old then
                        (* Link the previous ephemer subpicture and replace
                           it with the current one *)
                        let st1 := link_at e st in
                        register_head
                          (SortState (st_heap st1) (p_subpic st1) (Some i_index)
                             (ephemer_date st1) (st_events st1))
                      else linked
                  | None => st
                  end
              end
            else linked
        else link_at i_index st
      else st
  end.

Definition sort_start (heap : list subpicture_t) : sort_state :=
  SortState heap None None 0 [].

(** The state after the first [n] turns of the loop. *)
Definition sort_prefix (display_date : Z) (heap : list subpicture_t) (n : nat) : sort_state :=
  foldl (λ st i, sort_body display_date i st) (sort_start heap) (seq 0 n).

Definition sort_scan (display_date : Z) (heap : list subpicture_t) : sort_state :=
  sort_prefix display_date heap (length heap).

(** What the function hands back: the head of the list, the heap with the
    links and the destroyed subpictures, and the messages. *)
Record sorted : Set := Sorted {
  so_result : option nat;
  so_heap : list subpicture_t;
  so_events : list event
}.

(** The part after the loop. *)
Definition sort_finish (st : sort_state) : sorted :=
  match p_ephemer st with
  | Some e =>
      match st_heap st !! e with
      | Some eph =>
          if i_start eph <? ephemer_date st then
            (* Ephemer subpicture has lived too long *)
            let st' := destroy_at e st in
            Sorted (p_subpic st') (st_heap st') (st_events st')
          else
            let st' := link_at e st in
            Sorted (Some e) (st_heap st') (st_events st')
      | None => Sorted (p_subpic st) (st_heap st) (st_events st)
      end
  | None => Sorted (p_subpic st) (st_heap st) (st_events st)
  end.

Definition vout_SortSubPictures (p_vout : vout_thread_t) (display_date : Z) : sorted :=
  sort_finish (sort_scan display_date (p_subpicture p_vout)).

(** ** The chained list *)

(** [chain heap p l]: following [p_next] from [p] goes through the
    subpictures [l], in this order, and ends at the null pointer. *)
Inductive chain (heap : list subpicture_t) : option nat → list nat → Prop :=
| chain_null : chain heap None []
| chain_next i s l :
    heap !! i = Some s → chain heap (p_next s) l → chain heap (Some i) (i :: l).

(** The walk of vout_RenderSubPictures along the list, [fuel] subpictures at
    most; [None] when the end was not reached. *)
Fixpoint walk (fuel : nat) (heap : list subpicture_t) (p : option nat) : option (list nat) :=
  match p with
  | None => Some []
  | Some i =>
      match fuel, heap !! i with
      | S fuel', Some s => cons i <$> walk fuel' heap (p_next s)
      | _, _ => None
      end
  end.

(** The subpictures a caller finds in the list it got from
    [vout_SortSubPictures]. *)
Definition subpictures_of (r : sorted) : option (list nat) :=
  walk (length (so_heap r)) (so_heap r) (so_result r).

(** ** vout_RenderSPU *)

(** The picture drawn on: its bytes, addressed from [p_pic->p->p_pixels], and
    the [memset] calls made so far (destination, byte, count). *)
Record canvas : Type := Canvas {
  pixels : Z → Z;
  fills : list (Z * Z * Z)
}.

(** [memset] stores its value as an [unsigned char]. A count that is not
    positive stores nothing here. *)
Definition memset (dest c n : Z) (cv : canvas) : canvas :=
  Canvas (λ a, if (dest <=? a) && (a <? dest + n) then c mod 256 else pixels cv a)
         (fills cv ++ [(dest, c mod 256, n)]).

Definition p_trsp : list Z := [0x00; 0xff; 0xff; 0xff].
Definition p_clut8 : list Z := [0xaa; 0x44; 0xff; 0x88].
Definition p_clut16 : list Z := [0xaaaa; 0x4444; 0xffff; 0x8888].

Definition entry (table : list Z) (i : Z) : Z := default 0 (table !! Z.to_nat i).

(** The two fields of a word of the RLE data. *)
Definition rle_color (w : Z) : Z := Z.land w 3.
Definition rle_length (w : Z) : Z := Int.shr w 2.

(** *** I420 target, no scaling *)

(** The [switch] in the loop over a line: one word of the data is used, the
    cursor [i_x] moves. *)
Definition run_i420 (p_dest i_y w i_x : Z) (cv : canvas) : Z * canvas :=
  let i_color := rle_color w in
  let trsp := entry p_trsp i_color in
  if trsp =? 0x00 then (Int.sub i_x (rle_length w), cv)
  else if trsp =? 0xff then
    let i_len := rle_length w in
    (Int.sub i_x i_len, memset (p_dest - i_x - i_y) (entry p_clut8 i_color) i_len cv)
  else
    let i_len := rle_length w in
    (Int.sub i_x i_len, memset (p_dest - i_x - i_y) (entry p_clut8 i_color) i_len cv).

(** [for( i_x = ... ; i_x ; )]: draws until the cursor is 0 and gives back the
    rest of the data; [None] when the data ends before the line does. *)
Fixpoint line_i420 (p_dest i_y : Z) (p_source : list Z) (i_x : Z) (cv : canvas)
    : option (list Z * canvas) :=
  match p_source with
  | [] => if i_x =? 0 then Some ([], cv) else None
  | w :: rest =>
      if i_x =? 0 then Some (p_source, cv)
      else let '(i_x', cv') := run_i420 p_dest i_y w i_x cv in
           line_i420 p_dest i_y rest i_x' cv'
  end.

(** The loop over the lines; [None] when [fuel] lines were not enough. *)
Fixpoint lines_i420 (fuel : nat) (out_width p_dest width : Z)
    (i_y : Z) (p_source : list Z) (cv : canvas) : option canvas :=
  if i_y =? 0 then Some cv
  else match fuel with
       | O => None
       | S fuel' =>
           '(rest, cv') ← line_i420 p_dest i_y p_source width cv;
           lines_i420 fuel' out_width p_dest width (Int.sub i_y out_width) rest cv'
       end.

(** *** RV16 target, scaling *)

Definition x_scale (p_vout : vout_thread_t) : Z :=
  Int.div (Int.shl (Output.i_width (output p_vout)) 6) (Render.i_width (render p_vout)).

Definition y_scale (p_vout : vout_thread_t) : Z :=
  Int.div (Int.shl (Output.i_height (output p_vout)) 6) (Render.i_height (render p_vout)).

(** The count handed to [memset] for a run of [i_len] (in 1/64 of a pixel). *)
Definition fill_count (i_len : Z) : Z := Int.mul 2 (Int.add (Int.shr i_len 6) 1).

(** One line of the picture for each line of the subpicture. *)
Definition run_rv16 (p_dest i_xscale i_yreal w i_x : Z) (cv : canvas) : Z * canvas :=
  let i_color := rle_color w in
  let trsp := entry p_trsp i_color in
  if trsp =? 0x00 then (Int.sub i_x (Int.mul i_xscale (rle_length w)), cv)
  else if trsp =? 0xff then
    let i_len := Int.mul i_xscale (rle_length w) in
    (Int.sub i_x i_len,
     memset (p_dest - Int.mul 2 (Int.shr i_x 6) + i_yreal)
            (entry p_clut16 i_color) (fill_count i_len) cv)
  else
    let i_len := Int.mul i_xscale (rle_length w) in
    (Int.sub i_x i_len,
     memset (p_dest - Int.mul 2 (Int.shr i_x 6) + i_yreal)
            (entry p_clut16 i_color) (fill_count i_len) cv).

(** [for( i_ytmp = i_yreal ; i_ytmp < i_ynext ; i_ytmp += width * 2 )] *)
Fixpoint fill_lines (fuel : nat) (dest step i_ytmp i_ynext c n : Z) (cv : canvas)
    : option canvas :=
  if i_ytmp <? i_ynext then
    match fuel with
    | O => None
    | S fuel' =>
        fill_lines fuel' dest step (Int.add i_ytmp step) i_ynext c n
          (memset (dest + i_ytmp) c n cv)
    end
  else Some cv.

(** Several lines of the picture for a line of the subpicture. *)
Definition run_rv16_many (fuel : nat) (out_width p_dest i_xscale i_yreal i_ynext w i_x : Z)
    (cv : canvas) : option (Z * canvas) :=
  let i_color := rle_color w in
  let trsp := entry p_trsp i_color in
  if trsp =? 0x00 then Some (Int.sub i_x (Int.mul i_xscale (rle_length w)), cv)
  else if trsp =? 0xff then
    let i_len := Int.mul i_xscale (rle_length w) in
    cv' ← fill_lines fuel (p_dest - Int.mul 2 (Int.shr i_x 6)) (Int.mul out_width 2)
            i_yreal i_ynext (entry p_clut16 i_color) (fill_count i_len) cv;
    Some (Int.sub i_x i_len, cv')
  else
    let i_len := Int.mul i_xscale (rle_length w) in
    cv' ← fill_lines fuel (p_dest - Int.mul 2 (Int.shr i_x 6)) (Int.mul out_width 2)
            i_yreal i_ynext (entry p_clut16 i_color) (fill_count i_len) cv;
    Some (Int.sub i_x i_len, cv').

(** The loop over a line, with the [switch] to use in it. *)
Fixpoint line_rv16 (run : Z → Z → canvas → option (Z * canvas))
    (p_source : list Z) (i_x : Z) (cv : canvas) : option (list Z * canvas) :=
  match p_source with
  | [] => if i_x =? 0 then Some ([], cv) else None
  | w :: rest =>
      if i_x =? 0 then Some (p_source, cv)
      else '(i_x', cv') ← run w i_x cv; line_rv16 run rest i_x' cv'
  end.

Fixpoint lines_rv16 (fuel : nat) (out_width p_dest i_xscale i_yscale i_width i_height : Z)
    (i_y : Z) (p_source : list Z) (cv : canvas) : option canvas :=
  if i_y <? i_height then
    match fuel with
    | O => None
    | S fuel' =>
        let i_ytmp := Int.shr i_y 6 in
        let i_y := Int.add i_y i_yscale in
        let i_yreal := Int.mul (Int.mul out_width 2) i_ytmp in
        let run :=
          if Int.add i_ytmp 1 >=? Int.shr i_y 6 then
            λ w i_x cv, Some (run_rv16 p_dest i_xscale i_yreal w i_x cv)
          else
            let i_ynext := Int.shr (Int.mul (Int.mul out_width 2) i_y) 6 in
            run_rv16_many fuel out_width p_dest i_xscale i_yreal i_ynext in
        '(rest, cv') ← line_rv16 run p_source i_width cv;
        lines_rv16 fuel' out_width p_dest i_xscale i_yscale i_width i_height i_y rest cv'
    end
  else Some cv.

(** The renderer; the second component says whether the chroma was known. *)
Definition vout_RenderSPU (fuel : nat) (p_vout : vout_thread_t) (cv : canvas)
    (p_spu : subpicture_t) : option canvas * list event :=
  let p_source := default [] (buf_words <$> p_data p_spu) in
  let out_width := Output.i_width (output p_vout) in
  let draw_i420 :=
    let p_dest := i_x p_spu + i_width p_spu
                  + Int.mul out_width (Int.add (i_y p_spu) (i_height p_spu)) in
    lines_i420 fuel out_width p_dest (i_width p_spu)
      (Int.mul (i_height p_spu) out_width) p_source cv in
  match Output.i_chroma (output p_vout) with
  | FOURCC_I420 | FOURCC_IYUV | FOURCC_YV12 => (draw_i420, [])
  | FOURCC_RV16 =>
      let i_xscale := x_scale p_vout in
      let i_yscale := y_scale p_vout in
      let i_width := Int.mul (i_width p_spu) i_xscale in
      let i_height := Int.mul (i_height p_spu) i_yscale in
      let p_dest := Int.mul (Int.shr i_width 6) 2
                    + Int.mul (Int.shr (Int.mul (i_x p_spu) i_xscale) 6) 2
                    + Int.mul (Int.mul (Int.shr (Int.mul (i_y p_spu) i_yscale) 6) out_width) 2 in
      (lines_rv16 fuel out_width p_dest i_xscale i_yscale i_width i_height 0 p_source cv, [])
  | FOURCC_other _ => (Some cv, [ErrUnknownChroma])
  end.

(** ** vout_RenderSubPictures *)

(** Renders the chained list that starts at [p]; [None] when [fuel] did not
    suffice. *)
Fixpoint vout_RenderSubPictures (fuel : nat) (p_vout : vout_thread_t)
    (cv : canvas) (p : option nat) : option (canvas * list event) :=
  match p with
  | None => Some (cv, [])
  | Some i =>
      match fuel, p_subpicture p_vout !! i with
      | S fuel', Some s =>
          '(cv1, msgs1) ←
            match i_type s with
            | DVD_SUBPICTURE =>
                let r := vout_RenderSPU fuel p_vout cv s in
                cv1 ← r.1; Some (cv1, r.2)
            | t => Some (cv, [ErrUnknownSubpicture t])
            end;
          '(cv2, msgs2) ← vout_RenderSubPictures fuel' p_vout cv1 (p_next s);
          Some (cv2, msgs1 ++ msgs2)
      | _, _ => None
      end
  end.

(** * Vocabulary of the properties *)

(** ** Placement *)

(** The sums and differences that a call to [vout_DisplaySubPicture]
    computes, for a margin [m], an output height [H] and a subpicture height
    [h], stay in the range of [int] (C leaves the others undefined). *)
Definition display_in_range (m H h : Z) : Prop :=
  0 <= m →
  Int.in_range (h + m)
  ∧ (h + m <= H → Int.in_range (H - m) ∧ Int.in_range (H - m - h)).

(** An output 480 lines high, and a reserved subpicture of 720 by [height]
    that its producer put at line [y]. *)
Definition vout_480 : vout_thread_t :=
  Vout (Output.mk 720 480 FOURCC_I420) (Render.mk 720 480) [].

Definition reserved_at (y height : Z) : subpicture_t :=
  Subpicture DVD_SUBPICTURE RESERVED_SUBPICTURE 64 None 0 0 false 0 y 720 height None.

(** ** Allocation *)

(** [first_at P l i]: the subpicture at [i] is the first of [l] with [P]. *)
Definition first_at (P : subpicture_t → Prop) (l : list subpicture_t) (i : nat) : Prop :=
  ∃ s, l !! i = Some s ∧ P s ∧ ∀ j s', (j < i)%nat → l !! j = Some s' → ¬ P s'.

(** A destroyed subpicture that can serve a request as it is. *)
Definition reusable (type : subpicture_type) (size : Z) (s : subpicture_t) : Prop :=
  i_status s = DESTROYED_SUBPICTURE ∧ i_type s = type ∧ size <= i_size s.

Definition is_free (s : subpicture_t) : Prop := i_status s = FREE_SUBPICTURE.
Definition is_destroyed (s : subpicture_t) : Prop := i_status s = DESTROYED_SUBPICTURE.

(** A call ended on "subpicture heap is full". *)
Definition heap_full (r : created) : Prop :=
  cr_result r = None ∧ ErrHeapFull ∈ cr_events r.

(** What the remembered pointer is at the end of the loop: the one held at
    the start, if any, else the first subpicture of the kind looked for. *)
Definition remembered (P : subpicture_t → Prop) (l : list subpicture_t) (k : nat)
    (before after : option nat) : Prop :=
  match before, after with
  | Some _, _ => after = before
  | None, Some r => ∃ i, r = (k + i)%nat ∧ first_at P l i
  | None, None => Forall (λ s, ¬ P s) l
  end.

(** A heap with a ready, two destroyed and a free subpicture. *)
Definition heap_reuse : list subpicture_t :=
  [ Subpicture DVD_SUBPICTURE READY_SUBPICTURE 64 None 0 9 false 0 0 8 2 (Some (Buffer 4096 [5; 6]));
    Subpicture DVD_SUBPICTURE DESTROYED_SUBPICTURE 32 None 0 9 false 1 2 8 2 (Some (Buffer 8192 [7]));
    Subpicture DVD_SUBPICTURE DESTROYED_SUBPICTURE 128 (Some 0%nat) 3 9 true 3 4 16 4
      (Some (Buffer 12288 [9; 10; 11]));
    Subpicture EMPTY_SUBPICTURE FREE_SUBPICTURE 0 None 0 0 false 0 0 0 0 None ].

(** Closes a goal that has an event in a list of events it differs from. *)
Ltac not_among_events H :=
  repeat (apply elem_of_cons in H as [H|H]; [discriminate|]);
  by apply elem_of_nil in H.

(** ** Rendering *)

(** A subpicture of 4 by 2 at (1, 1) on an output 8 wide: a transparent
    pixel and three of class 1, then two of class 2 and two transparent. *)
Definition spu_4x2 : subpicture_t :=
  Subpicture DVD_SUBPICTURE READY_SUBPICTURE 8 None 0 100 false 1 1 4 2
    (Some (Buffer 0 [4; 13; 10; 8])).

(** An RV16 output half as wide and as high as the pictures rendered. *)
Definition vout_360_of_720 : vout_thread_t :=
  Vout (Output.mk 360 240 FOURCC_RV16) (Render.mk 720 480) [].

(** ** Selection: the loop without the pointers *)

(** The list, the ephemer subpicture and the date of the loop of
    [vout_SortSubPictures], computed from the heap as it was at the call: the
    fields the loop reads are not the ones it writes. *)
Record selection : Set := Selection {
  sel_list : list nat;
  sel_ephemer : option nat;
  sel_date : Z
}.

(** One turn of the loop; compare [sort_body]. *)
Definition select_step (d : Z) (P : list subpicture_t) (v : selection) (i : nat) : selection :=
  match P !! i with
  | None => v
  | Some s =>
      if decide (i_status s = READY_SUBPICTURE) then
        if decide (i_type s = DVD_SUBPICTURE) then
          if d >? i_stop s then v
          else if d <? i_start s then v
          else
            let linked :=
              Selection (i :: sel_list v) (sel_ephemer v)
                (register_date (i_start s) (sel_date v)) in
            if b_ephemer s then
              match sel_ephemer v with
              | None => Selection (sel_list v) (Some i) (sel_date v)
              | Some e =>
                  match P !! e with
                  | Some old =>
                      if i_start s <? i_start old then
                        Selection (e :: sel_list v) (Some i)
                          (register_date (i_start old) (sel_date v))
                      else linked
                  | None => v
                  end
              end
            else linked
        else Selection (i :: sel_list v) (sel_ephemer v) (sel_date v)
      else v
  end.

Definition select (d : Z) (P : list subpicture_t) (n : nat) : selection :=
  foldl (select_step d P) (Selection [] None 0) (seq 0 n).

(** The date is too late for the subpicture. *)
Definition expired (d : Z) (s : subpicture_t) : bool :=
  bool_decide (i_status s = READY_SUBPICTURE)
  && bool_decide (i_type s = DVD_SUBPICTURE)
  && (d >? i_stop s).

(** A ready subpicture that is not a DVD subpicture, or a ready DVD
    subpicture with the date between its start and its stop, both included. *)
Definition shown (d : Z) (s : subpicture_t) : Prop :=
  i_status s = READY_SUBPICTURE
  ∧ (i_type s ≠ DVD_SUBPICTURE ∨ i_start s <= d <= i_stop s).

(** An ephemer DVD subpicture to show at the date. *)
Definition eligible_ephemer (d : Z) (s : subpicture_t) : Prop :=
  i_status s = READY_SUBPICTURE ∧ i_type s = DVD_SUBPICTURE
  ∧ i_start s <= d <= i_stop s ∧ b_ephemer s = true.

(** The facts about a prefix of the loop that the rest builds on. *)
Record select_ok (d : Z) (P : list subpicture_t) (n : nat) (v : selection) : Prop := {
  ok_list : Forall (λ j, (j < n)%nat) (sel_list v);
  ok_size : (length (sel_list v) + match sel_ephemer v with Some _ => 1 | None => 0 end
             ≤ n)%nat;
  ok_ephemer : ∀ e, sel_ephemer v = Some e →
      (e < n)%nat ∧ (e ∉ sel_list v) ∧ (∃ s, P !! e = Some s ∧ eligible_ephemer d s);
  ok_member : ∀ j s, P !! j = Some s →
      (j ∈ sel_list v ∨ sel_ephemer v = Some j) ↔ ((j < n)%nat ∧ shown d s)
}.

(** Turns the comparisons that were decided into inequalities. *)
Ltac decide_bools :=
  repeat match goal with
  | H : (_ >? _) = true |- _ => rewrite Z.gtb_ltb in H; apply Z.ltb_lt in H
  | H : (_ >? _) = false |- _ => rewrite Z.gtb_ltb in H; apply Z.ltb_ge in H
  | H : (_ <? _) = true |- _ => apply Z.ltb_lt in H
  | H : (_ <? _) = false |- _ => apply Z.ltb_ge in H
  end.

(** The ephemer subpicture kept after [n] turns starts no later than any
    ephemer DVD subpicture to show among the first [n], and is the first of
    those that start with it; none is kept only when there is none to show. *)
Definition earliest_ephemer (d : Z) (P : list subpicture_t) (n : nat) (v : selection) : Prop :=
  match sel_ephemer v with
  | Some e =>
      ∃ se, P !! e = Some se ∧ eligible_ephemer d se ∧ (e < n)%nat
            ∧ ∀ j s, (j < n)%nat → P !! j = Some s → eligible_ephemer d s →
                     i_start se <= i_start s ∧ (i_start s = i_start se → (e ≤ j)%nat)
  | None => ∀ j s, (j < n)%nat → P !! j = Some s → ¬ eligible_ephemer d s
  end.

(** The starts of the DVD subpictures of a list. *)
Definition dvd_starts (P : list subpicture_t) (l : list nat) : list Z :=
  omap (λ j, s ← P !! j; if decide (i_type s = DVD_SUBPICTURE) then Some (i_start s) else None) l.

(** The date after the subpictures of the list were registered, last of the
    list first: the order they were put in it. *)
Definition registered (starts : list Z) : Z := foldr register_date 0 starts.

(** The list handed back and the ephemer subpicture destroyed at the end, if
    one is, read off the selection. *)
Definition outcome (d : Z) (P : list subpicture_t) : list nat * option nat :=
  let v := select d P (length P) in
  match sel_ephemer v with
  | Some e =>
      match P !! e with
      | Some se =>
          if i_start se <? sel_date v then (sel_list v, Some e)
          else (e :: sel_list v, None)
      | None => (sel_list v, None)
      end
  | None => (sel_list v, None)
  end.

(** The subpicture at [j] after the call, up to its link. *)
Definition left_as (d : Z) (gone : option nat) (j : nat) (s : subpicture_t) : subpicture_t :=
  if expired d s || bool_decide (gone = Some j)
  then set_status DESTROYED_SUBPICTURE s else s.

(** ** Selection: the loop with the pointers *)

(** The subpicture at [j] as the first [n] turns of the loop leave it, up to
    its link. *)
Definition seen (d : Z) (n j : nat) (s : subpicture_t) : subpicture_t :=
  if bool_decide (j < n)%nat && expired d s
  then set_status DESTROYED_SUBPICTURE s else s.

(** The heap after [n] turns: the subpictures of the heap [P] of the call,
    those that expired destroyed, with links that only the turns made can
    have changed. *)
Definition slots (d : Z) (P : list subpicture_t) (n : nat) (heap : list subpicture_t) : Prop :=
  ∀ j s, P !! j = Some s →
    ∃ nx, heap !! j = Some (set_next nx (seen d n j s))
          ∧ ((n ≤ j)%nat → nx = p_next s).

(** The state of the loop after [n] turns and the selection [v] say the
    same. *)
Record sort_inv (d : Z) (P : list subpicture_t) (n : nat)
    (v : selection) (st : sort_state) : Prop := {
  inv_length : length (st_heap st) = length P;
  inv_slots : slots d P n (st_heap st);
  inv_chain : chain (st_heap st) (p_subpic st) (sel_list v);
  inv_ephemer : p_ephemer st = sel_ephemer v;
  inv_date : ephemer_date st = sel_date v;
  inv_events : st_events st = []
}.

(** ** Selection: heaps and statements to try *)

(** A ready DVD subpicture, and an output with a heap. *)
Definition dvd (ephemer : bool) (start stop : Z) : subpicture_t :=
  Subpicture DVD_SUBPICTURE READY_SUBPICTURE 64 None start stop ephemer 0 0 0 0
    (Some (Buffer 0 [])).

(** A ready text subpicture. *)
Definition text (start stop : Z) : subpicture_t :=
  Subpicture TEXT_SUBPICTURE READY_SUBPICTURE 64 None start stop false 0 0 0 0
    (Some (Buffer 0 [])).

Definition vout_of (heap : list subpicture_t) : vout_thread_t :=
  Vout (Output.mk 720 480 FOURCC_I420) (Render.mk 720 480) heap.

(** An ephemer subpicture that stops at 20 and a later one that is not
    ephemer. *)
Definition heap_stale : list subpicture_t := [dvd true 10 20; dvd false 15 30].

(** The claim that a ready DVD subpicture is never destroyed by a call at
    its stop. *)
Definition stays_at_stop (p_vout : vout_thread_t) (i : nat) : Prop :=
  ∀ s s',
    p_subpicture p_vout !! i = Some s →
    i_status s = READY_SUBPICTURE → i_type s = DVD_SUBPICTURE →
    so_heap (vout_SortSubPictures p_vout (i_stop s)) !! i = Some s' →
    i_status s' ≠ DESTROYED_SUBPICTURE.

(** Three ephemer subpictures A, B and C that start at 10, 20 and 15. *)
Definition heap_abc : list subpicture_t := [dvd true 10 100; dvd true 20 100; dvd true 15 100].

(** B, A and C in this order: the second turn replaces B by A. *)
Definition heap_bac : list subpicture_t := [dvd true 20 100; dvd true 10 100; dvd true 15 100].

(** The claim about them: the list starts with B, and A and C are destroyed
    and not in the list. *)
Definition freshest_wins (heap : list subpicture_t) (d : Z) : Prop :=
  ∃ l,
    subpictures_of (vout_SortSubPictures (vout_of heap) d) = Some l
    ∧ head l = Some 1%nat
    ∧ ∀ j, j = 0%nat ∨ j = 2%nat →
        (j ∉ l)
        ∧ i_status <$> so_heap (vout_SortSubPictures (vout_of heap) d) !! j
          = Some DESTROYED_SUBPICTURE.

(** [m] is the least start among the subpictures of the list [l]. *)
Definition least_start_of (P : list subpicture_t) (l : list nat) (m : Z) : Prop :=
  (∃ j s, j ∈ l ∧ P !! j = Some s ∧ i_start s = m)
  ∧ ∀ j s, j ∈ l → P !! j = Some s → m <= i_start s.

(** The claim that the date the loop registered is the least start among the
    subpictures of the list it built. *)
Definition date_is_least_start (heap : list subpicture_t) (d : Z) : Prop :=
  ∃ l,
    walk (length heap) (st_heap (sort_scan d heap)) (p_subpic (sort_scan d heap)) = Some l
    ∧ least_start_of heap l (ephemer_date (sort_scan d heap)).

(** ** Allocation: the path through the allocator *)

(** The size the call asks the allocator for; none for a type it does not
    know. *)
Definition asked_size (type : subpicture_type) (size : Z) : option Z :=
  match type with
  | TEXT_SUBPICTURE => Some (Int.add size 1)
  | DVD_SUBPICTURE => Some size
  | _ => None
  end.

(** What the call gets from the allocator. *)
Definition allocated (memalign : Z → Z → option buffer)
    (type : subpicture_type) (size : Z) : option buffer :=
  asked_size type size ≫= memalign 16.

(** What the [switch] on the type leaves in the trace. *)
Definition asked_events (type : subpicture_type) (size : Z) : list event :=
  match asked_size type size with
  | Some n => [Memalign 16 n]
  | None => [ErrUnknownType type]
  end.

(** The subpicture that was prepared, and the one left when the allocation
    failed. *)
Definition prepared (type : subpicture_type) (size : Z) (b : buffer)
    (s : subpicture_t) : subpicture_t :=
  set_defaults type size (set_data (Some b) s).

Definition emptied (s : subpicture_t) : subpicture_t :=
  set_status FREE_SUBPICTURE (set_type EMPTY_SUBPICTURE (set_data None s)).

(** A subpicture in use: reserved by a producer or ready for display. *)
Definition in_use (s : subpicture_t) : Prop :=
  i_status s = RESERVED_SUBPICTURE ∨ i_status s = READY_SUBPICTURE.

(** A heap with a subpicture in use, a destroyed one that is too small, and a
    free one; and one with no free subpicture. *)
Definition heap_free : list subpicture_t :=
  [ Subpicture DVD_SUBPICTURE READY_SUBPICTURE 64 None 0 9 false 0 0 8 2 (Some (Buffer 4096 [5; 6]));
    Subpicture DVD_SUBPICTURE DESTROYED_SUBPICTURE 32 None 0 9 false 1 2 8 2 (Some (Buffer 8192 [7]));
    Subpicture EMPTY_SUBPICTURE FREE_SUBPICTURE 0 None 0 0 false 0 0 0 0 None ].

Definition heap_busy : list subpicture_t :=
  [ Subpicture DVD_SUBPICTURE READY_SUBPICTURE 64 None 0 9 false 0 0 8 2 (Some (Buffer 4096 [5; 6]));
    Subpicture DVD_SUBPICTURE DESTROYED_SUBPICTURE 32 None 0 9 false 1 2 8 2 (Some (Buffer 8192 [7])) ].

(** An allocator that always answers with the same block, and one that
    always fails. *)
Definition memalign_ok : Z → Z → option buffer := λ _ _, Some (Buffer 16384 [0; 0]).
Definition memalign_fails : Z → Z → option buffer := λ _ _, None.

(** ** Selection: what a call leaves alone *)

(** The links of the subpictures that are not in the list [l] are the ones
    of the heap [P] of the call. *)
Definition links_kept (P heap : list subpicture_t) (l : list nat) : Prop :=
  ∀ j s s', P !! j = Some s → heap !! j = Some s' → j ∉ l → p_next s' = p_next s.

(** The same subpicture but for its link and its status. *)
Definition same_payload (s s' : subpicture_t) : Prop :=
  i_type s' = i_type s ∧ i_size s' = i_size s
  ∧ i_start s' = i_start s ∧ i_stop s' = i_stop s ∧ b_ephemer s' = b_ephemer s
  ∧ i_x s' = i_x s ∧ i_y s' = i_y s ∧ i_width s' = i_width s ∧ i_height s' = i_height s
  ∧ p_data s' = p_data s.

(** [shown], decided. *)
Definition shownb (d : Z) (s : subpicture_t) : bool :=
  bool_decide (i_status s = READY_SUBPICTURE)
  && (negb (bool_decide (i_type s = DVD_SUBPICTURE))
      || ((i_start s <=? d) && (d <=? i_stop s))).

(** The subpicture at [j] is one to show. *)
Definition shown_at (d : Z) (P : list subpicture_t) (j : nat) : bool :=
  from_option (shownb d) false (P !! j).

(** A text that is ready, a DVD subpicture that is reserved, an expired one,
    one to show and one that comes later. *)
Definition heap_mixed : list subpicture_t :=
  [ text 0 0;
    set_status RESERVED_SUBPICTURE (dvd false 0 100);
    dvd false 0 10;
    dvd false 10 30;
    dvd false 40 50 ].

(** ** Rendering: where the renderer draws *)

(** The pixels that the words [ws] cover together. *)
Definition run_lengths (ws : list Z) : Z := foldr (λ w total, rle_length w + total) 0 ws.

(** The data of a line: runs that are not empty and cover [width] pixels. *)
Definition line_data (width : Z) (ws : list Z) : Prop :=
  Forall (λ w, 0 < rle_length w) ws ∧ run_lengths ws = width.

(** The address [a] is in one of the [n] lines of [width] bytes that end
    [out_width], [2 * out_width], ... before [p_dest]. *)
Definition in_lines (p_dest out_width width : Z) (n : nat) (a : Z) : Prop :=
  ∃ k, 1 <= k <= Z.of_nat n
       ∧ p_dest - k * out_width - width <= a < p_dest - k * out_width.

(** The address [a] is in the rectangle of the subpicture on an output
    [out_width] wide. *)
Definition in_rectangle (out_width : Z) (s : subpicture_t) (a : Z) : Prop :=
  ∃ r c, 0 <= r < i_height s ∧ 0 <= c < i_width s
         ∧ a = (i_y s + r) * out_width + i_x s + c.

(** The products and the sum of the unscaled renderer stay in the range of
    [int]. *)
Definition i420_in_range (out_width : Z) (s : subpicture_t) : Prop :=
  Int.in_range (i_y s + i_height s)
  ∧ Int.in_range (out_width * (i_y s + i_height s))
  ∧ Int.in_range (i_height s * out_width)
  ∧ Int.in_range (i_width s).

(** Two texts, the first linked to the second. *)
Definition heap_texts : list subpicture_t :=
  [set_next (Some 1%nat) (text 0 0); text 5 9].

(** The output of [render_spu_4x2], and the two lines of its data. *)
Definition vout_8x4 : vout_thread_t :=
  Vout (Output.mk 8 4 FOURCC_I420) (Render.mk 8 4) [spu_4x2].

Definition rows_4x2 : list (list Z) := [[4; 13]; [10; 8]].

(** ** Selection: a second call *)

(** The output thread with the heap as a call at date [d] leaves it. *)
Definition after_sort (p_vout : vout_thread_t) (d : Z) : vout_thread_t :=
  Vout (output p_vout) (render p_vout) (so_heap (vout_SortSubPictures p_vout d)).

(** * Properties *)

(** ** Arithmetic *)

Lemma wrap_in_range (z : Z) : Int.in_range z → Int.wrap z = z.
Proof.
  unfold Int.in_range, Int.wrap, Int.min_signed, Int.max_signed. intros Hz.
  rewrite Z.mod_small; lia.
Qed.

(** ** Placement and destruction *)

Section placement.
Variables (i_margin : Z) (p_vout : vout_thread_t) (p_subpic : subpicture_t).

Let height := Output.i_height (output p_vout).

(** The status on entry plays no part in what happens to the subpicture. *)
Lemma display_ignores_status (st : subpicture_status) :
  (vout_DisplaySubPicture i_margin p_vout (set_status st p_subpic)).1
  = (vout_DisplaySubPicture i_margin p_vout p_subpic).1.
Proof.
  unfold vout_DisplaySubPicture. cbn [fst].
  destruct (i_margin >=? 0); [|reflexivity].
  cbn [set_status i_height].
  destruct (_ <=? _); reflexivity.
Qed.

Lemma display_y_machine :
  i_y (vout_DisplaySubPicture i_margin p_vout p_subpic).1
  = if (i_margin >=? 0) && (Int.add (i_height p_subpic) i_margin <=? height)
    then Int.sub (Int.sub height i_margin) (i_height p_subpic)
    else i_y p_subpic.
Proof.
  unfold vout_DisplaySubPicture, height. cbn [fst].
  destruct (i_margin >=? 0); [|reflexivity].
  destruct (_ <=? _); reflexivity.
Qed.
End placement.

(** C6. Displaying a subpicture with margin [m] on an output of height [H]
    puts it at [y = H - m - height] when [m >= 0] and [height + m <= H], and
    leaves [y] as the producer set it otherwise ([m < 0], or the subpicture
    does not fit). The numbers are C [int]s and the call computes with them
    without overflow. *)
Theorem display_applies_margin (m : Z) (p_vout : vout_thread_t) (s : subpicture_t) :
  display_in_range m (Output.i_height (output p_vout)) (i_height s) →
  i_y (vout_DisplaySubPicture m p_vout s).1
  = if decide (0 <= m ∧ i_height s + m <= Output.i_height (output p_vout))
    then Output.i_height (output p_vout) - m - i_height s
    else i_y s.
Proof.
  intros Hrange. rewrite display_y_machine.
  destruct (Z.geb_spec m 0) as [Hm0|Hm0]; cbn [andb].
  - destruct Hrange as [Hsum Hdiff]; [lia|].
    unfold Int.add. rewrite (wrap_in_range _ Hsum).
    destruct (Z.leb_spec (i_height s + m) (Output.i_height (output p_vout))) as [Hfit|Hfit].
    + rewrite decide_True by lia. destruct (Hdiff Hfit) as [Hd1 Hd2].
      unfold Int.sub. rewrite (wrap_in_range _ Hd1). by apply wrap_in_range.
    + rewrite decide_False by lia. reflexivity.
  - rewrite decide_False by lia. reflexivity.
Qed.

Lemma display_applies_margin_witness :
  i_y (vout_DisplaySubPicture 20 vout_480 (reserved_at 7 40)).1 = 420
  ∧ i_y (vout_DisplaySubPicture (-1) vout_480 (reserved_at 7 40)).1 = 7.
Proof.
  split.
  - rewrite display_applies_margin; [reflexivity|].
    unfold display_in_range, Int.in_range, Int.min_signed, Int.max_signed. simpl. lia.
  - rewrite display_applies_margin; [reflexivity|].
    unfold display_in_range. simpl. lia.
Defined.

(** C9. A status that is not the expected one is reported and changes
    nothing else: [vout_DisplaySubPicture] makes the subpicture ready and
    [vout_DestroySubPicture] makes it destroyed whatever the status was, the
    subpicture they leave is the one a call with the expected status leaves,
    and the message is all there is to see of it. *)
Theorem invalid_status_only_warns (m : Z) (p_vout : vout_thread_t) (s : subpicture_t) :
  i_status (vout_DisplaySubPicture m p_vout s).1 = READY_SUBPICTURE
  ∧ (vout_DisplaySubPicture m p_vout s).1
    = (vout_DisplaySubPicture m p_vout (set_status RESERVED_SUBPICTURE s)).1
  ∧ (vout_DisplaySubPicture m p_vout s).2
    = (if decide (i_status s = RESERVED_SUBPICTURE) then []
       else [ErrInvalidStatus (i_status s)])
  ∧ i_status (vout_DestroySubPicture s).1 = DESTROYED_SUBPICTURE
  ∧ (vout_DestroySubPicture s).1
    = (vout_DestroySubPicture (set_status RESERVED_SUBPICTURE s)).1
  ∧ (vout_DestroySubPicture s).1
    = (vout_DestroySubPicture (set_status READY_SUBPICTURE s)).1
  ∧ (vout_DestroySubPicture s).2
    = (if decide (i_status s = RESERVED_SUBPICTURE ∨ i_status s = READY_SUBPICTURE)
       then [] else [ErrInvalidStatus (i_status s)]).
Proof.
  repeat split.
  - symmetry. apply display_ignores_status.
  - unfold vout_DestroySubPicture. cbn [snd].
    destruct (i_status s); reflexivity.
Qed.

(** ** Allocation *)

Lemma first_at_here (P : subpicture_t → Prop) a l : P a → first_at P (a :: l) 0.
Proof. intros Ha. exists a. split_and!; [done..|]. intros j s' Hj. lia. Qed.

Lemma first_at_later (P : subpicture_t → Prop) a l i :
  ¬ P a → first_at P l i → first_at P (a :: l) (S i).
Proof.
  intros Ha (s & Hs & HP & Hmin). exists s. split_and!; [done..|].
  intros [|j] s' Hj Hl; simpl in Hl.
  - by injection Hl as <-.
  - apply (Hmin j); [lia|done].
Qed.

Lemma first_at_unique (P : subpicture_t → Prop) l i j :
  first_at P l i → first_at P l j → i = j.
Proof.
  intros (s & Hs & HP & Hmin) (s' & Hs' & HP' & Hmin').
  destruct (Nat.lt_trichotomy i j) as [Hlt|[Heq|Hlt]]; [|done|].
  - by destruct (Hmin' i s Hlt Hs).
  - by destruct (Hmin j s' Hlt Hs').
Qed.

Lemma remembered_later (P : subpicture_t → Prop) a l k before after :
  ¬ P a → remembered P l (S k) before after → remembered P (a :: l) k before after.
Proof.
  unfold remembered. intros Ha. destruct before, after; try done.
  - intros (i & -> & Hi). exists (S i). split; [lia|]. by apply first_at_later.
  - by constructor.
Qed.

Lemma remembered_here (P : subpicture_t → Prop) a l k after :
  P a → remembered P l (S k) (Some k) after → remembered P (a :: l) k None after.
Proof.
  unfold remembered. intros Ha ->. exists 0%nat. split; [lia|]. by apply first_at_here.
Qed.

Lemma look_for_place_spec (type : subpicture_type) (size : Z) (l : list subpicture_t) :
  ∀ k f d,
    match look_for_place type size l k f d with
    | Reuse r => ∃ i, r = (k + i)%nat ∧ first_at (reusable type size) l i
    | Scanned f' d' =>
        Forall (λ s, ¬ reusable type size s) l
        ∧ remembered is_free l k f f'
        ∧ remembered is_destroyed l k d d'
    end.
Proof.
  induction l as [|a l IH]; intros k f d; simpl.
  { split_and!; [constructor|..]; unfold remembered.
    - destruct f; [done|constructor].
    - destruct d; [done|constructor]. }
  destruct (decide (i_status a = DESTROYED_SUBPICTURE)) as [Hd|Hd].
  - destruct (bool_decide (i_type a = type) && (i_size a >=? size)) eqn:Hm.
    + exists 0%nat. split; [lia|]. apply first_at_here.
      apply andb_true_iff in Hm as [Ht%bool_decide_eq_true Hs%Z.geb_le]. done.
    + assert (¬ reusable type size a) as Hnot.
      { intros (_ & Ht & Hs). apply andb_false_iff in Hm as [Hm|Hm].
        - by apply bool_decide_eq_false in Hm.
        - rewrite Z.geb_leb in Hm. apply Z.leb_gt in Hm. lia. }
      assert (¬ is_free a) as Hnf by (unfold is_free; congruence).
      destruct d as [d0|].
      * specialize (IH (S k) f (Some d0)).
        destruct (look_for_place _ _ _ _ _ _) as [r|f' d'].
        -- destruct IH as (i & -> & Hi). exists (S i).
           split; [lia|]. by apply first_at_later.
        -- destruct IH as (Hall & Hf & Hdd). split_and!.
           ++ by constructor.
           ++ by apply remembered_later.
           ++ exact Hdd.
      * specialize (IH (S k) f (Some k)).
        destruct (look_for_place _ _ _ _ _ _) as [r|f' d'].
        -- destruct IH as (i & -> & Hi). exists (S i).
           split; [lia|]. by apply first_at_later.
        -- destruct IH as (Hall & Hf & Hdd). split_and!.
           ++ by constructor.
           ++ by apply remembered_later.
           ++ by apply remembered_here.
  - assert (¬ reusable type size a) as Hnot by (by intros (? & _)).
    assert (¬ is_destroyed a) as Hnd by done.
    destruct f as [f0|]; cbn [andb].
    + specialize (IH (S k) (Some f0) d).
      destruct (look_for_place _ _ _ _ _ _) as [r|f' d'].
      * destruct IH as (i & -> & Hi). exists (S i).
        split; [lia|]. by apply first_at_later.
      * destruct IH as (Hall & Hf & Hdd). split_and!.
        -- by constructor.
        -- exact Hf.
        -- by apply remembered_later.
    + destruct (bool_decide (i_status a = FREE_SUBPICTURE)) eqn:Hfree.
      * apply bool_decide_eq_true in Hfree.
        specialize (IH (S k) (Some k) d).
        destruct (look_for_place _ _ _ _ _ _) as [r|f' d'].
        -- destruct IH as (i & -> & Hi). exists (S i).
           split; [lia|]. by apply first_at_later.
        -- destruct IH as (Hall & Hf & Hdd). split_and!.
           ++ by constructor.
           ++ by apply remembered_here.
           ++ by apply remembered_later.
      * apply bool_decide_eq_false in Hfree.
        specialize (IH (S k) None d).
        destruct (look_for_place _ _ _ _ _ _) as [r|f' d'].
        -- destruct IH as (i & -> & Hi). exists (S i).
           split; [lia|]. by apply first_at_later.
        -- destruct IH as (Hall & Hf & Hdd). split_and!.
           ++ by constructor.
           ++ by apply remembered_later.
           ++ by apply remembered_later.
Qed.

Lemma alter_lookup_insert (f : subpicture_t → subpicture_t) (l : list subpicture_t) i s :
  l !! i = Some s → alter f i l = <[i := f s]> l.
Proof.
  intros Hs. apply list_eq. intros j.
  destruct (decide (i = j)) as [<-|Hne].
  - rewrite list_lookup_alter_eq, Hs, list_lookup_insert_eq; [done|].
    by eapply lookup_lt_Some.
  - by rewrite list_lookup_alter_ne, list_lookup_insert_ne.
Qed.

Lemma no_reusable_no_first (type : subpicture_type) (size : Z) l i :
  Forall (λ s, ¬ reusable type size s) l → ¬ first_at (reusable type size) l i.
Proof.
  intros Hall (s & Hs & HP & _).
  by apply (Forall_lookup_1 _ _ _ _ Hall Hs).
Qed.

(** What the call does when no subpicture can be reused as it is. *)
Lemma create_scanned memalign heap type size f d :
  look_for_place type size heap 0 None None = Scanned f d →
  vout_CreateSubPicture memalign heap type size
  = let freed := match f, d with
                 | None, Some d => [Free (heap !! d ≫= p_data)]
                 | _, _ => []
                 end in
    match (match f with Some _ => f | None => d end) with
    | None => Created None heap ([Lock] ++ freed ++ [ErrHeapFull; Unlock])
    | Some p =>
        let '(data, asked) :=
          match type with
          | TEXT_SUBPICTURE =>
              (memalign 16 (Int.add size 1), [Memalign 16 (Int.add size 1)])
          | DVD_SUBPICTURE => (memalign 16 size, [Memalign 16 size])
          | _ => (None, [ErrUnknownType type])
          end in
        match data with
        | Some b =>
            Created (Some p)
              (alter (λ s, set_defaults type size (set_data (Some b) s)) p heap)
              ([Lock] ++ freed ++ asked ++ [Unlock])
        | None =>
            Created None
              (alter (λ s, set_status FREE_SUBPICTURE
                             (set_type EMPTY_SUBPICTURE (set_data None s))) p heap)
              ([Lock] ++ freed ++ asked ++ [ErrAllocFailed; Unlock])
        end
    end.
Proof.
  intros Hlook. unfold vout_CreateSubPicture. rewrite Hlook.
  destruct f, d; reflexivity.
Qed.

(** C4. When some subpicture of the heap is destroyed, of the type asked for
    and at least as large as the size asked for, the first of them is
    returned, reserved and otherwise as it was; the call takes and releases
    the lock and does nothing else: no [memalign], no [free]. *)
Theorem create_reuses_first_match (memalign : Z → Z → option buffer)
    (heap : list subpicture_t) (type : subpicture_type) (size : Z) :
  Exists (reusable type size) heap →
  ∃ i s,
    heap !! i = Some s
    ∧ reusable type size s
    ∧ (∀ j s', (j < i)%nat → heap !! j = Some s' → ¬ reusable type size s')
    ∧ vout_CreateSubPicture memalign heap type size
      = Created (Some i) (<[i := set_status RESERVED_SUBPICTURE s]> heap) [Lock; Unlock]
    ∧ p_data (set_status RESERVED_SUBPICTURE s) = p_data s.
Proof.
  intros Hex. unfold vout_CreateSubPicture.
  pose proof (look_for_place_spec type size heap 0 None None) as Hspec.
  destruct (look_for_place _ _ _ _ _ _) as [r|f d].
  - destruct Hspec as (i & -> & s & Hs & Hre & Hmin).
    exists i, s. split_and!; [done..| |done].
    by rewrite (alter_lookup_insert _ _ _ _ Hs).
  - destruct Hspec as (Hall & _).
    apply Exists_exists in Hex as (s & Hin & Hre).
    rewrite Forall_forall in Hall. by destruct (Hall s Hin).
Qed.

Lemma create_reuses_first_match_witness :
  ∃ i s,
    heap_reuse !! i = Some s
    ∧ reusable DVD_SUBPICTURE 100 s
    ∧ (∀ j s', (j < i)%nat → heap_reuse !! j = Some s' → ¬ reusable DVD_SUBPICTURE 100 s')
    ∧ vout_CreateSubPicture (λ _ _, None) heap_reuse DVD_SUBPICTURE 100
      = Created (Some i) (<[i := set_status RESERVED_SUBPICTURE s]> heap_reuse) [Lock; Unlock]
    ∧ p_data (set_status RESERVED_SUBPICTURE s) = p_data s.
Proof.
  apply create_reuses_first_match.
  apply Exists_cons_tl, Exists_cons_tl, Exists_cons_hd.
  unfold reusable. simpl. split_and!; [reflexivity..|lia].
Defined.

(** C5. The call ends on "subpicture heap is full", with a null result, if
    and only if no subpicture of the heap is free and none is destroyed; the
    heap is then left as it was. *)
Theorem create_heap_full_iff (memalign : Z → Z → option buffer)
    (heap : list subpicture_t) (type : subpicture_type) (size : Z) :
  (heap_full (vout_CreateSubPicture memalign heap type size)
   ↔ Forall (λ s, i_status s ≠ FREE_SUBPICTURE ∧ i_status s ≠ DESTROYED_SUBPICTURE) heap)
  ∧ (Forall (λ s, i_status s ≠ FREE_SUBPICTURE ∧ i_status s ≠ DESTROYED_SUBPICTURE) heap
     ↔ vout_CreateSubPicture memalign heap type size
       = Created None heap [Lock; ErrHeapFull; Unlock]).
Proof.
  assert (∀ l : list subpicture_t,
    Forall (λ s, ¬ is_free s) l → Forall (λ s, ¬ is_destroyed s) l →
    Forall (λ s, i_status s ≠ FREE_SUBPICTURE ∧ i_status s ≠ DESTROYED_SUBPICTURE) l)
    as Hboth.
  { intros l Hf Hd. rewrite Forall_forall in *. intros s Hin. split.
    - by apply Hf. - by apply Hd. }
  assert (∀ (P : subpicture_t → Prop) i,
    first_at P heap i →
    Forall (λ s, i_status s ≠ FREE_SUBPICTURE ∧ i_status s ≠ DESTROYED_SUBPICTURE) heap →
    (∀ s, P s → i_status s = FREE_SUBPICTURE ∨ i_status s = DESTROYED_SUBPICTURE) →
    False) as Hnone.
  { intros P i (s & Hs & HP & _) Hall Himp.
    destruct (Forall_lookup_1 _ _ _ _ Hall Hs) as [? ?].
    destruct (Himp s HP); done. }
  pose proof (look_for_place_spec type size heap 0 None None) as Hspec.
  destruct (look_for_place type size heap 0 None None) as [r|f d] eqn:Hlook.
  - destruct Hspec as (i & -> & Hfirst).
    assert (¬ Forall (λ s, i_status s ≠ FREE_SUBPICTURE
                           ∧ i_status s ≠ DESTROYED_SUBPICTURE) heap) as Hno.
    { intros Hall. apply (Hnone _ _ Hfirst Hall). intros s (? & _). by right. }
    unfold vout_CreateSubPicture. rewrite Hlook. split; split.
    + by intros [? _].
    + done.
    + done.
    + discriminate.
  - destruct Hspec as (_ & Hf & Hd).
    rewrite (create_scanned _ _ _ _ _ _ Hlook). unfold remembered in Hf, Hd.
    destruct f as [f|], d as [d|]; cbn zeta iota beta.
    + destruct Hf as (i & _ & Hfirst).
      assert (¬ Forall (λ s, i_status s ≠ FREE_SUBPICTURE
                             ∧ i_status s ≠ DESTROYED_SUBPICTURE) heap) as Hno.
      { intros Hall. apply (Hnone _ _ Hfirst Hall). intros s ?. by left. }
      split; split; [|done|done|].
      * intros [Hres Hin]. exfalso. revert Hres Hin.
        destruct type; try destruct (memalign _ _); simpl; try discriminate;
          intros _ Hin; not_among_events Hin.
      * destruct type; try destruct (memalign _ _); discriminate.
    + destruct Hf as (i & _ & Hfirst).
      assert (¬ Forall (λ s, i_status s ≠ FREE_SUBPICTURE
                             ∧ i_status s ≠ DESTROYED_SUBPICTURE) heap) as Hno.
      { intros Hall. apply (Hnone _ _ Hfirst Hall). intros s ?. by left. }
      split; split; [|done|done|].
      * intros [Hres Hin]. exfalso. revert Hres Hin.
        destruct type; try destruct (memalign _ _); simpl; try discriminate;
          intros _ Hin; not_among_events Hin.
      * destruct type; try destruct (memalign _ _); discriminate.
    + destruct Hd as (i & _ & Hfirst).
      assert (¬ Forall (λ s, i_status s ≠ FREE_SUBPICTURE
                             ∧ i_status s ≠ DESTROYED_SUBPICTURE) heap) as Hno.
      { intros Hall. apply (Hnone _ _ Hfirst Hall). intros s ?. by right. }
      split; split; [|done|done|].
      * intros [Hres Hin]. exfalso. revert Hres Hin.
        destruct type; try destruct (memalign _ _); simpl; try discriminate;
          intros _ Hin; not_among_events Hin.
      * destruct type; try destruct (memalign _ _); discriminate.
    + split; split; intros _; try done.
      * by apply Hboth.
      * split; [done|]. simpl. apply elem_of_cons. right. apply elem_of_cons. by left.
      * by apply Hboth.
Qed.

(** C10. A call that succeeds changes one subpicture of the heap, the one it
    returns. When that one could be reused as it was (destroyed, same type,
    large enough), only its status changes: position, extent, recorded size
    (the old one, not the size asked for), type and data stay. Otherwise it
    went through an allocation: position and extent are 0, the size is the
    size asked for, the type the type asked for and the data the new block. *)
Theorem create_changes (memalign : Z → Z → option buffer)
    (heap : list subpicture_t) (type : subpicture_type) (size : Z) (i : nat) :
  cr_result (vout_CreateSubPicture memalign heap type size) = Some i →
  ∃ s s',
    heap !! i = Some s
    ∧ cr_heap (vout_CreateSubPicture memalign heap type size) !! i = Some s'
    ∧ i_status s' = RESERVED_SUBPICTURE
    ∧ (∀ j, j ≠ i →
         cr_heap (vout_CreateSubPicture memalign heap type size) !! j = heap !! j)
    ∧ (reusable type size s →
         s' = set_status RESERVED_SUBPICTURE s
         ∧ i_x s' = i_x s ∧ i_y s' = i_y s
         ∧ i_width s' = i_width s ∧ i_height s' = i_height s
         ∧ i_size s' = i_size s ∧ i_type s' = i_type s ∧ p_data s' = p_data s
         ∧ cr_events (vout_CreateSubPicture memalign heap type size) = [Lock; Unlock])
    ∧ (¬ reusable type size s →
         i_x s' = 0 ∧ i_y s' = 0 ∧ i_width s' = 0 ∧ i_height s' = 0
         ∧ i_size s' = size ∧ i_type s' = type
         ∧ ∃ n b, Memalign 16 n ∈ cr_events (vout_CreateSubPicture memalign heap type size)
                  ∧ memalign 16 n = Some b ∧ p_data s' = Some b).
Proof.
  pose proof (look_for_place_spec type size heap 0 None None) as Hspec.
  destruct (look_for_place type size heap 0 None None) as [r|f d] eqn:Hlook.
  - unfold vout_CreateSubPicture. rewrite Hlook. cbn [cr_result cr_heap cr_events].
    destruct Hspec as (k & Hr & s & Hs & Hre & _). simpl in Hr. subst k.
    intros [= <-].
    exists s, (set_status RESERVED_SUBPICTURE s). split_and!.
    + done.
    + by rewrite list_lookup_alter_eq, Hs.
    + done.
    + intros j Hj. by rewrite list_lookup_alter_ne.
    + intros _. by split_and!.
    + done.
  - rewrite (create_scanned _ _ _ _ _ _ Hlook). cbn zeta.
    destruct Hspec as (Hall & Hf & Hd).
    assert (∀ p, match f with Some _ => f | None => d end = Some p →
                 ∃ s, heap !! p = Some s ∧ ¬ reusable type size s) as Hvalid.
    { intros p Hp. unfold remembered in Hf, Hd.
      assert (is_Some (heap !! p)) as [s Hs].
      { destruct f as [f|].
        - injection Hp as ->. destruct Hf as (k & -> & s & Hs & _). by exists s.
        - subst d. destruct Hd as (k & -> & s & Hs & _). by exists s. }
      exists s. split; [done|]. by apply (Forall_lookup_1 _ _ _ _ Hall Hs). }
    destruct (match f with Some _ => f | None => d end) as [p|]; [|discriminate].
    destruct (Hvalid p eq_refl) as (s & Hs & Hnot).
    assert (∀ n b, memalign 16 n = Some b →
      Memalign 16 n ∈ [Lock] ++ match f, d with
                                | None, Some d => [Free (heap !! d ≫= p_data)]
                                | _, _ => []
                                end ++ [Memalign 16 n] ++ [Unlock] →
      cr_result (Created (Some p)
                   (alter (λ s, set_defaults type size (set_data (Some b) s)) p heap)
                   ([Lock] ++ match f, d with
                              | None, Some d => [Free (heap !! d ≫= p_data)]
                              | _, _ => []
                              end ++ [Memalign 16 n] ++ [Unlock])) = Some i →
      ∃ s0 s',
        heap !! i = Some s0
        ∧ alter (λ s, set_defaults type size (set_data (Some b) s)) p heap !! i = Some s'
        ∧ i_status s' = RESERVED_SUBPICTURE
        ∧ (∀ j, j ≠ i →
             alter (λ s, set_defaults type size (set_data (Some b) s)) p heap !! j
             = heap !! j)
        ∧ (reusable type size s0 → False)
        ∧ i_x s' = 0 ∧ i_y s' = 0 ∧ i_width s' = 0 ∧ i_height s' = 0
        ∧ i_size s' = size ∧ i_type s' = type ∧ p_data s' = Some b) as Hok.
    { intros n b Hb Hin [= <-].
      exists s, (set_defaults type size (set_data (Some b) s)). split_and!; try done.
      - by rewrite list_lookup_alter_eq, Hs.
      - intros j Hj. by rewrite list_lookup_alter_ne. }
    assert (∀ n, Memalign 16 n ∈ [Lock] ++ match f, d with
                                          | None, Some d => [Free (heap !! d ≫= p_data)]
                                          | _, _ => []
                                          end ++ [Memalign 16 n] ++ [Unlock]) as Hin.
    { intros n. apply elem_of_app. right. apply elem_of_app. right.
      apply elem_of_cons. by left. }
    destruct type; cbn iota beta; try discriminate.
    + destruct (memalign 16 size) as [b|] eqn:Hb; [|discriminate].
      intros Hres.
      destruct (Hok size b Hb (Hin _) Hres)
        as (s0 & s' & H0 & H1 & H2 & H3 & H4 & H5 & H6 & H7 & H8 & H9 & H10 & H11).
      exists s0, s'. cbn [cr_heap cr_events]. split_and!; try done.
      intros _. split_and!; try done. by exists size, b.
    + destruct (memalign 16 (Int.add size 1)) as [b|] eqn:Hb; [|discriminate].
      intros Hres.
      destruct (Hok (Int.add size 1) b Hb (Hin _) Hres)
        as (s0 & s' & H0 & H1 & H2 & H3 & H4 & H5 & H6 & H7 & H8 & H9 & H10 & H11).
      exists s0, s'. cbn [cr_heap cr_events]. split_and!; try done.
      intros _. split_and!; try done. by exists (Int.add size 1), b.
Qed.

Lemma create_changes_witness :
  ∃ s s',
    heap_reuse !! 2%nat = Some s
    ∧ cr_heap (vout_CreateSubPicture (λ _ _, None) heap_reuse DVD_SUBPICTURE 100) !! 2%nat
      = Some s'
    ∧ i_status s' = RESERVED_SUBPICTURE
    ∧ (∀ j, j ≠ 2%nat →
         cr_heap (vout_CreateSubPicture (λ _ _, None) heap_reuse DVD_SUBPICTURE 100) !! j
         = heap_reuse !! j)
    ∧ (reusable DVD_SUBPICTURE 100 s →
         s' = set_status RESERVED_SUBPICTURE s
         ∧ i_x s' = i_x s ∧ i_y s' = i_y s
         ∧ i_width s' = i_width s ∧ i_height s' = i_height s
         ∧ i_size s' = i_size s ∧ i_type s' = i_type s ∧ p_data s' = p_data s
         ∧ cr_events (vout_CreateSubPicture (λ _ _, None) heap_reuse DVD_SUBPICTURE 100)
           = [Lock; Unlock])
    ∧ (¬ reusable DVD_SUBPICTURE 100 s →
         i_x s' = 0 ∧ i_y s' = 0 ∧ i_width s' = 0 ∧ i_height s' = 0
         ∧ i_size s' = 100 ∧ i_type s' = DVD_SUBPICTURE
         ∧ ∃ n b, Memalign 16 n
                    ∈ cr_events (vout_CreateSubPicture (λ _ _, None) heap_reuse
                                   DVD_SUBPICTURE 100)
                  ∧ (λ _ _ : Z, @None buffer) 16 n = Some b ∧ p_data s' = Some b).
Proof. apply (create_changes (λ _ _, None) heap_reuse DVD_SUBPICTURE 100 2). reflexivity. Defined.

(** A free subpicture goes through an allocation; when the allocation fails
    for a destroyed one, its data is gone and it is free and empty. *)
Example create_allocates :
  vout_CreateSubPicture (λ _ _, Some (Buffer 4096 [0; 0]))
    [Subpicture EMPTY_SUBPICTURE FREE_SUBPICTURE 0 None 0 0 false 9 9 9 9 None]
    DVD_SUBPICTURE 4
  = Created (Some 0%nat)
      [Subpicture DVD_SUBPICTURE RESERVED_SUBPICTURE 4 None 0 0 false 0 0 0 0
         (Some (Buffer 4096 [0; 0]))]
      [Lock; Memalign 16 4; Unlock].
Proof. reflexivity. Qed.

Example create_fails :
  vout_CreateSubPicture (λ _ _, None)
    [Subpicture DVD_SUBPICTURE DESTROYED_SUBPICTURE 2 None 0 0 false 9 9 9 9
       (Some (Buffer 1 []))]
    DVD_SUBPICTURE 4
  = Created None
      [Subpicture EMPTY_SUBPICTURE FREE_SUBPICTURE 2 None 0 0 false 9 9 9 9 None]
      [Lock; Free (Some (Buffer 1 [])); Memalign 16 4; ErrAllocFailed; Unlock].
Proof. reflexivity. Qed.

(** ** The RLE data and the renderer *)

Lemma rle_color_mod (w : Z) : rle_color w = w mod 4.
Proof. unfold rle_color. change 3 with (Z.ones 2). by rewrite Z.land_ones. Qed.

Lemma rle_length_div (w : Z) : rle_length w = w / 4.
Proof. unfold rle_length, Int.shr. by rewrite Z.shiftr_div_pow2. Qed.

Lemma rle_fields_bits (w k : Z) :
  0 <= k →
  Z.testbit (rle_color w) k = Z.testbit w k && (k <? 2)
  ∧ Z.testbit (rle_length w) k = Z.testbit w (k + 2).
Proof.
  intros Hk. unfold rle_color, rle_length, Int.shr. split.
  - rewrite Z.land_spec. change 3 with (Z.ones 2).
    destruct (Z.ltb_spec k 2) as [Hlt|Hge].
    + by rewrite Z.ones_spec_low by lia.
    + by rewrite Z.ones_spec_high by lia.
  - by rewrite Z.shiftr_spec.
Qed.

Lemma rle_word_fields (w : Z) : w = Z.lor (Z.shiftl (rle_length w) 2) (rle_color w).
Proof.
  apply Z.bits_inj'. intros k Hk. rewrite Z.lor_spec.
  destruct (rle_fields_bits w k Hk) as [Hc _]. rewrite Hc.
  destruct (Z.ltb_spec k 2) as [Hlt|Hge].
  - rewrite Z.shiftl_spec_low by lia. by rewrite andb_true_r.
  - rewrite Z.shiftl_spec by lia.
    destruct (rle_fields_bits w (k - 2)) as [_ Hl]; [lia|]. rewrite Hl.
    replace (k - 2 + 2) with k by lia. by rewrite andb_false_r, orb_false_r.
Qed.

Lemma transparent_class (w : Z) : rle_color w = 0 → entry p_trsp (rle_color w) = 0.
Proof. by intros ->. Qed.

(** A line whose words are all of class 0 is crossed without a [memset]. *)
Lemma line_i420_transparent (p_dest i_y : Z) (p_source : list Z) :
  Forall (λ w, rle_color w = 0) p_source →
  ∀ i_x cv rest cv',
    line_i420 p_dest i_y p_source i_x cv = Some (rest, cv') → cv' = cv.
Proof.
  induction 1 as [|w l Hw Hl IH]; intros i_x cv rest cv'; simpl.
  - destruct (i_x =? 0); [|discriminate]. by intros [= _ <-].
  - destruct (i_x =? 0); [by intros [= _ <-]|].
    unfold run_i420. rewrite (transparent_class _ Hw). simpl. apply IH.
Qed.

(** C7. A word [w] of the RLE data holds the colour class in its bits 0-1
    ([w & 0x3]) and the length of the run in its bits 2-15 ([w >> 2]). A word
    of class 0 is transparent: in the unscaled and in both scaled loops it
    moves the cursor by the length of the run (times the scale where the
    cursor is scaled) and no [memset] is made, so the picture is as before. *)
Theorem rle_word_decoding (w : Z) :
  0 <= w < 65536 →
  rle_color w = Z.land w 3
  ∧ rle_length w = Z.shiftr w 2
  ∧ rle_color w = w mod 4
  ∧ rle_length w = w / 4
  ∧ 0 <= rle_color w < 4
  ∧ 0 <= rle_length w < 16384
  ∧ w = Z.lor (Z.shiftl (rle_length w) 2) (rle_color w)
  ∧ (∀ k, 0 <= k →
       Z.testbit (rle_color w) k = Z.testbit w k && (k <? 2)
       ∧ Z.testbit (rle_length w) k = Z.testbit w (k + 2))
  ∧ (rle_color w = 0 →
       (∀ p_dest i_y i_x cv,
          run_i420 p_dest i_y w i_x cv = (Int.sub i_x (rle_length w), cv))
       ∧ (∀ p_dest i_xscale i_yreal i_x cv,
            run_rv16 p_dest i_xscale i_yreal w i_x cv
            = (Int.sub i_x (Int.mul i_xscale (rle_length w)), cv))
       ∧ (∀ fuel out_width p_dest i_xscale i_yreal i_ynext i_x cv,
            run_rv16_many fuel out_width p_dest i_xscale i_yreal i_ynext w i_x cv
            = Some (Int.sub i_x (Int.mul i_xscale (rle_length w)), cv))).
Proof.
  intros Hw.
  pose proof (rle_color_mod w) as Hc. pose proof (rle_length_div w) as Hl.
  assert (0 <= rle_color w < 4) as Hcr.
  { rewrite Hc. apply Z.mod_pos_bound. lia. }
  assert (0 <= rle_length w < 16384) as Hlr.
  { rewrite Hl. split; [apply Z.div_pos; lia|apply Z.div_lt_upper_bound; lia]. }
  do 2 (split; [reflexivity|]). do 4 (split; [assumption|]).
  split; [apply rle_word_fields|]. split; [apply rle_fields_bits|].
  intros Hc0. split; [|split]; intros.
  - unfold run_i420. by rewrite (transparent_class _ Hc0).
  - unfold run_rv16. by rewrite (transparent_class _ Hc0).
  - unfold run_rv16_many. by rewrite (transparent_class _ Hc0).
Qed.

Lemma rle_word_decoding_witness :
  rle_color 148 = 0 ∧ rle_length 148 = 37
  ∧ run_i420 1000 0 148 40 (Canvas (λ _, 0) []) = (3, Canvas (λ _, 0) []).
Proof.
  destruct (rle_word_decoding 148) as (_ & _ & _ & _ & _ & _ & _ & _ & Hrun); [lia|].
  destruct (Hrun eq_refl) as (Hi420 & _ & _).
  split_and!; [reflexivity..|]. rewrite Hi420. reflexivity.
Defined.

(** The word [(37 << 2) | 2] gives back length 37 and class 2. *)
Example rle_round_trip :
  rle_length (Z.lor (Z.shiftl 37 2) 2) = 37 ∧ rle_color (Z.lor (Z.shiftl 37 2) 2) = 2.
Proof. split; reflexivity. Qed.

Example render_spu_4x2 :
  (λ r, (fills <$> r.1, r.2))
    (vout_RenderSPU 2 (Vout (Output.mk 8 4 FOURCC_I420) (Render.mk 8 4) [spu_4x2])
       (Canvas (λ _, 0) []) spu_4x2)
  = (Some [(10, 0x44, 3); (17, 0xff, 2)], []).
Proof. reflexivity. Qed.

Example render_spu_4x2_halved :
  (λ r, (fills <$> r.1, r.2))
    (vout_RenderSPU 2 (Vout (Output.mk 4 2 FOURCC_RV16) (Render.mk 8 4) [spu_4x2])
       (Canvas (λ _, 0) []) spu_4x2)
  = (Some [(2, 0x44, 4); (0, 0xff, 4)], []).
Proof. reflexivity. Qed.

Lemma rle_encode_decode (n c : Z) :
  0 <= n → 0 <= c < 4 →
  rle_color (Z.lor (Z.shiftl n 2) c) = c ∧ rle_length (Z.lor (Z.shiftl n 2) c) = n.
Proof.
  intros Hn Hc. unfold rle_color, rle_length, Int.shr. split.
  - rewrite Z.land_lor_distr_l. change 3 with (Z.ones 2). rewrite !Z.land_ones by lia.
    rewrite Z.shiftl_mul_pow2 by lia. rewrite Z.mod_mul by lia.
    rewrite Z.mod_small by lia. reflexivity.
  - rewrite Z.shiftr_lor. rewrite Z.shiftr_shiftl_l by lia.
    rewrite (Z.shiftr_div_pow2 c) by lia. rewrite Z.div_small by lia.
    simpl. by rewrite Z.lor_0_r.
Qed.

Lemma fill_count_pixels (i_len : Z) :
  0 <= i_len <= Int.max_signed → fill_count i_len = 2 * (i_len / 64 + 1).
Proof.
  unfold Int.max_signed. intros Hlen. unfold fill_count, Int.shr, Int.add, Int.mul.
  rewrite Z.shiftr_div_pow2 by lia. change (2 ^ 6) with 64.
  assert (0 <= i_len / 64 < 2 ^ 25) as Hq.
  { split; [apply Z.div_pos; lia|apply Z.div_lt_upper_bound; lia]. }
  rewrite (wrap_in_range (i_len / 64 + 1))
    by (unfold Int.in_range, Int.min_signed, Int.max_signed; lia).
  apply wrap_in_range. unfold Int.in_range, Int.min_signed, Int.max_signed. lia.
Qed.

Lemma x_scale_value (p_vout : vout_thread_t) :
  0 <= Output.i_width (output p_vout) < 2 ^ 25 →
  0 < Render.i_width (render p_vout) →
  x_scale p_vout = Output.i_width (output p_vout) * 64 / Render.i_width (render p_vout).
Proof.
  intros Hout Hren. unfold x_scale, Int.shl, Int.div.
  rewrite Z.shiftl_mul_pow2 by lia. change (2 ^ 6) with 64.
  rewrite (wrap_in_range (_ * 64))
    by (unfold Int.in_range, Int.min_signed, Int.max_signed; lia).
  rewrite Z.quot_div_nonneg by lia.
  apply wrap_in_range. unfold Int.in_range, Int.min_signed, Int.max_signed.
  assert (0 <= Output.i_width (output p_vout) * 64 / Render.i_width (render p_vout)
          <= Output.i_width (output p_vout) * 64); [|lia].
  split; [apply Z.div_pos; lia|].
  apply Z.div_le_upper_bound; [lia|]. nia.
Qed.

(** C8, as the code has it. The horizontal scale is
    [(output width << 6) / render width], in 1/64. A run of [n] pixels of an
    opaque class moves the cursor by [scale * n] and fills
    [(scale * n >> 6) + 1] pixels of two bytes: one pixel more than the whole
    pixels of the run, whether the run ends on a part of a pixel or not. *)
Theorem scaled_run_length (p_vout : vout_thread_t) (n c : Z) :
  0 <= Output.i_width (output p_vout) < 2 ^ 25 →
  0 < Render.i_width (render p_vout) →
  0 <= n →
  x_scale p_vout * n <= Int.max_signed →
  1 <= c <= 3 →
  x_scale p_vout = Output.i_width (output p_vout) * 64 / Render.i_width (render p_vout)
  ∧ ∀ p_dest i_yreal i_x cv,
      run_rv16 p_dest (x_scale p_vout) i_yreal (Z.lor (Z.shiftl n 2) c) i_x cv
      = (Int.sub i_x (x_scale p_vout * n),
         memset (p_dest - Int.mul 2 (Int.shr i_x 6) + i_yreal) (entry p_clut16 c)
                (2 * (x_scale p_vout * n / 64 + 1)) cv).
Proof.
  intros Hout Hren Hn Hlen Hc.
  pose proof (x_scale_value p_vout Hout Hren) as Hscale.
  split; [exact Hscale|]. intros p_dest i_yreal i_x cv.
  assert (0 <= x_scale p_vout) as Hpos.
  { rewrite Hscale. apply Z.div_pos; lia. }
  destruct (rle_encode_decode n c) as [Hcol Hrun]; [lia..|].
  unfold run_rv16. rewrite Hcol, Hrun.
  assert (Int.mul (x_scale p_vout) n = x_scale p_vout * n) as ->.
  { apply wrap_in_range. unfold Int.in_range, Int.min_signed, Int.max_signed in *. nia. }
  rewrite fill_count_pixels by nia.
  assert (c = 1 ∨ c = 2 ∨ c = 3) as [-> | [-> | ->]] by lia; reflexivity.
Qed.

Lemma scaled_run_length_witness :
  x_scale vout_360_of_720 = 32
  ∧ ∀ p_dest i_yreal i_x cv,
      run_rv16 p_dest 32 i_yreal (Z.lor (Z.shiftl 10 2) 1) i_x cv
      = (Int.sub i_x 320,
         memset (p_dest - Int.mul 2 (Int.shr i_x 6) + i_yreal) 0x4444 12 cv).
Proof.
  destruct (scaled_run_length vout_360_of_720 10 1) as [Hscale Hrun].
  - simpl. lia.
  - simpl. lia.
  - lia.
  - vm_compute. discriminate.
  - lia.
  - split; [exact Hscale|]. intros p_dest i_yreal i_x cv.
    exact (Hrun p_dest i_yreal i_x cv).
Defined.

(** The run of 10 at scale 32 is not filled as 5 pixels (10 bytes): the
    [memset] it makes has 12 bytes. *)
Lemma scaled_run_of_10_is_not_5_pixels :
  x_scale vout_360_of_720 = 32
  ∧ ¬ ∃ dest byte,
        fills (run_rv16 0 (x_scale vout_360_of_720) 0 (Z.lor (Z.shiftl 10 2) 1) 640
                 (Canvas (λ _, 0) [])).2
        = [(dest, byte, 2 * 5)].
Proof.
  split; [reflexivity|]. intros (dest & byte & Hfill).
  vm_compute in Hfill. discriminate.
Qed.

(** ** Selection *)

Lemma select_S d P n : select d P (S n) = select_step d P (select d P n) n.
Proof. unfold select. by rewrite seq_S, foldl_app. Qed.

Lemma sort_prefix_S d P n :
  sort_prefix d P (S n) = sort_body d n (sort_prefix d P n).
Proof. unfold sort_prefix. by rewrite seq_S, foldl_app. Qed.

Lemma select_ok_start d P : select_ok d P 0 (Selection [] None 0).
Proof.
  split; simpl.
  - constructor.
  - lia.
  - discriminate.
  - intros j s _. split.
    + intros [Hin|?]; [|discriminate]. by apply elem_of_nil in Hin.
    + intros [? _]. lia.
Qed.

(** Nothing changes for the subpictures met before. *)
Lemma select_ok_skip d P n v :
  select_ok d P n v →
  (∀ s, P !! n = Some s → ¬ shown d s) →
  select_ok d P (S n) v.
Proof.
  intros [Hl Hsz He Hm] Hskip. split.
  - eapply Forall_impl; [exact Hl|]. simpl. lia.
  - lia.
  - intros e Hv. destruct (He e Hv) as (? & ? & ?). split_and!; [lia|done..].
  - intros j s Hs. rewrite (Hm j s Hs). split.
    + intros [? ?]. split; [lia|done].
    + intros [Hj Hsh]. split; [|done].
      destruct (decide (j = n)) as [->|]; [|lia]. by destruct (Hskip s Hs).
Qed.

(** The subpicture at [n] goes to the front of the list. *)
Lemma select_ok_link d P n v s date :
  select_ok d P n v → P !! n = Some s → shown d s →
  select_ok d P (S n) (Selection (n :: sel_list v) (sel_ephemer v) date).
Proof.
  intros [Hl Hsz He Hm] Hs Hsh. split; simpl.
  - constructor; [lia|]. eapply Forall_impl; [exact Hl|]. simpl. lia.
  - lia.
  - intros e Hv. destruct (He e Hv) as (? & ? & ?). split_and!; [lia| |done].
    apply not_elem_of_cons. split; [lia|done].
  - intros j s' Hs'. rewrite elem_of_cons. split.
    + intros [[->|Hin]|Hv].
      * rewrite Hs in Hs'. injection Hs' as <-. split; [lia|done].
      * destruct (proj1 (Hm j s' Hs') (or_introl Hin)). split; [lia|done].
      * destruct (proj1 (Hm j s' Hs') (or_intror Hv)). split; [lia|done].
    + intros [Hj Hsh']. destruct (decide (j = n)) as [->|Hne]; [by left; left|].
      destruct (proj2 (Hm j s' Hs')) as [?|?]; [split; [lia|done]|by left; right|by right].
Qed.

(** The subpicture at [n] becomes the ephemer subpicture; the one before it,
    if any, goes to the front of the list. *)
Lemma select_ok_ephemer d P n v s date :
  select_ok d P n v → P !! n = Some s → eligible_ephemer d s →
  select_ok d P (S n)
    (Selection (match sel_ephemer v with Some e => e :: sel_list v | None => sel_list v end)
       (Some n) date).
Proof.
  intros [Hl Hsz He Hm] Hs Hel.
  assert (shown d s) as Hsh.
  { destruct Hel as (? & ? & ? & ?). split; [done|by right]. }
  assert (n ∉ sel_list v) as Hn.
  { intros Hin. rewrite Forall_forall in Hl. specialize (Hl n Hin). simpl in Hl. lia. }
  split; simpl.
  - destruct (sel_ephemer v) as [e|] eqn:Hv.
    + destruct (He e eq_refl) as (? & ? & ?).
      constructor; [lia|]. eapply Forall_impl; [exact Hl|]. simpl. lia.
    + eapply Forall_impl; [exact Hl|]. simpl. lia.
  - destruct (sel_ephemer v); simpl in *; lia.
  - intros e' [= <-]. split_and!; [lia| |by exists s].
    destruct (sel_ephemer v) as [e|] eqn:Hv; [|done].
    destruct (He e eq_refl) as (? & ? & ?).
    apply not_elem_of_cons. split; [lia|done].
  - intros j s' Hs'. split.
    + intros [Hin|[= <-]].
      * destruct (sel_ephemer v) as [e|] eqn:Hv.
        -- apply elem_of_cons in Hin as [->|Hin].
           ++ destruct (proj1 (Hm e s' Hs') (or_intror eq_refl)). split; [lia|done].
           ++ destruct (proj1 (Hm j s' Hs') (or_introl Hin)). split; [lia|done].
        -- destruct (proj1 (Hm j s' Hs') (or_introl Hin)). split; [lia|done].
      * rewrite Hs in Hs'. injection Hs' as <-. split; [lia|done].
    + intros [Hj Hsh']. destruct (decide (j = n)) as [->|Hne]; [by right|].
      left. destruct (proj2 (Hm j s' Hs')) as [Hin|Hv]; [split; [lia|done]|..].
      * destruct (sel_ephemer v); [by apply list_elem_of_further|done].
      * rewrite Hv. apply list_elem_of_here.
Qed.

Lemma select_step_ok d P n v :
  select_ok d P n v → select_ok d P (S n) (select_step d P v n).
Proof.
  intros Hok. unfold select_step.
  destruct (P !! n) as [s|] eqn:Hs.
  2: { apply select_ok_skip; [done|]. intros s' Hs'. congruence. }
  assert (∀ s', P !! n = Some s' → s' = s) as Hsame by (intros s' Hs'; congruence).
  destruct (decide (i_status s = READY_SUBPICTURE)) as [Hready|Hready].
  2: { apply select_ok_skip; [done|]. intros s' ->%Hsame [? _]. done. }
  destruct (decide (i_type s = DVD_SUBPICTURE)) as [Hdvd|Hdvd].
  2: { apply (select_ok_link d P n v s); [done..|]. split; [done|by left]. }
  destruct (d >? i_stop s) eqn:Hstop; decide_bools.
  { apply select_ok_skip; [done|]. intros s' ->%Hsame [_ [?|?]]; [done|lia]. }
  destruct (d <? i_start s) eqn:Hstart; decide_bools.
  { apply select_ok_skip; [done|]. intros s' ->%Hsame [_ [?|?]]; [done|lia]. }
  assert (shown d s) as Hsh by (split; [done|right; lia]).
  destruct (b_ephemer s) eqn:Heph; [|by apply (select_ok_link d P n v s)].
  assert (eligible_ephemer d s) as Hel by (split_and!; [done..|lia|lia|done]).
  destruct (sel_ephemer v) as [e|] eqn:Hv.
  - destruct (ok_ephemer _ _ _ _ Hok e Hv) as (_ & _ & old & Hold & _). rewrite Hold.
    destruct (i_start s <? i_start old);
      [|by rewrite <- Hv; apply (select_ok_link d P n v s)].
    pose proof (select_ok_ephemer d P n v s
                  (register_date (i_start old) (sel_date v)) Hok Hs Hel) as H.
    by rewrite Hv in H.
  - pose proof (select_ok_ephemer d P n v s (sel_date v) Hok Hs Hel) as H.
    by rewrite Hv in H.
Qed.

Lemma select_is_ok d P n : select_ok d P n (select d P n).
Proof.
  induction n as [|n IH]; [apply select_ok_start|].
  rewrite select_S. by apply select_step_ok.
Qed.

(** *** The ephemer subpicture kept by the loop *)

Lemma earliest_ephemer_keep d P n v date l :
  earliest_ephemer d P n v →
  (∀ s, P !! n = Some s → eligible_ephemer d s →
        ∃ e se, sel_ephemer v = Some e ∧ P !! e = Some se ∧ i_start se <= i_start s) →
  earliest_ephemer d P (S n) (Selection l (sel_ephemer v) date).
Proof.
  unfold earliest_ephemer. simpl. intros Hv Hn.
  destruct (sel_ephemer v) as [e|].
  - destruct Hv as (se & Hse & Hel & He & Hmin). exists se. split_and!; [done..|lia|].
    intros j s Hj Hs Hels. destruct (decide (j = n)) as [->|Hne].
    + destruct (Hn s Hs Hels) as (e' & se' & [= <-] & Hse' & Hle).
      rewrite Hse in Hse'. injection Hse' as <-. split; [done|lia].
    + apply Hmin; [lia|done..].
  - intros j s Hj Hs Hels. destruct (decide (j = n)) as [->|Hne].
    + by destruct (Hn s Hs Hels) as (e' & se' & ? & _).
    + apply (Hv j s); [lia|done..].
Qed.

Lemma select_step_earliest d P n v :
  select_ok d P n v → earliest_ephemer d P n v →
  earliest_ephemer d P (S n) (select_step d P v n).
Proof.
  intros Hok Hv. unfold select_step.
  assert (∀ v', sel_ephemer v' = sel_ephemer v →
                (∀ s, P !! n = Some s → ¬ eligible_ephemer d s) →
                earliest_ephemer d P (S n) v') as Hkeep.
  { intros [l e' date] He' Hno. simpl in He'. subst e'.
    apply earliest_ephemer_keep; [done|].
    intros s Hs Hel. by destruct (Hno s Hs). }
  destruct (P !! n) as [s|] eqn:Hs.
  2: { apply Hkeep; [done|]. intros s' Hs'. discriminate. }
  assert (∀ s', P !! n = Some s' → s' = s) as Hsame by (intros s' Hs'; congruence).
  destruct (decide (i_status s = READY_SUBPICTURE)) as [Hready|Hready].
  2: { apply Hkeep; [done|]. intros s' [= <-] (? & _). done. }
  destruct (decide (i_type s = DVD_SUBPICTURE)) as [Hdvd|Hdvd].
  2: { apply Hkeep; [done|]. intros s' [= <-] (_ & ? & _). done. }
  destruct (d >? i_stop s) eqn:Hstop; decide_bools.
  { apply Hkeep; [done|]. intros s' [= <-] (_ & _ & ? & _). lia. }
  destruct (d <? i_start s) eqn:Hstart; decide_bools.
  { apply Hkeep; [done|]. intros s' [= <-] (_ & _ & ? & _). lia. }
  destruct (b_ephemer s) eqn:Heph.
  2: { apply Hkeep; [done|]. intros s' [= <-] (_ & _ & _ & ?). congruence. }
  assert (eligible_ephemer d s) as Hel by (split_and!; [done..|lia|lia|done]).
  destruct (sel_ephemer v) as [e|] eqn:He.
  - destruct (ok_ephemer _ _ _ _ Hok e He) as (_ & _ & old & Hold & _). rewrite Hold.
    destruct (i_start s <? i_start old) eqn:Hlt; decide_bools.
    + unfold earliest_ephemer in *. simpl. rewrite He in Hv.
      destruct Hv as (se & Hse & _ & _ & Hmin).
      rewrite Hold in Hse. injection Hse as <-.
      exists s. split_and!; [done..|lia|].
      intros j s' Hj Hs' Hel'. destruct (decide (j = n)) as [->|Hne].
      * apply Hsame in Hs' as ->. split; [lia|done].
      * destruct (Hmin j s') as [Hle _]; [lia|done..|]. split; lia.
    + rewrite <- He. apply earliest_ephemer_keep; [done|].
      intros s' ->%Hsame _. exists e, old. split_and!; [done..|lia].
  - unfold earliest_ephemer in *. simpl. rewrite He in Hv.
    exists s. split_and!; [done..|lia|].
    intros j s' Hj Hs' Hel'. destruct (decide (j = n)) as [->|Hne].
    + apply Hsame in Hs' as ->. split; [lia|done].
    + destruct (Hv j s'); [lia|done..].
Qed.

Lemma select_earliest d P n : earliest_ephemer d P n (select d P n).
Proof.
  induction n as [|n IH].
  - intros j s Hj. lia.
  - rewrite select_S. apply select_step_earliest; [apply select_is_ok|done].
Qed.

(** *** The date registered by the loop *)

Lemma select_step_date d P n v :
  select_ok d P n v →
  sel_date v = registered (dvd_starts P (sel_list v)) →
  sel_date (select_step d P v n)
  = registered (dvd_starts P (sel_list (select_step d P v n))).
Proof.
  intros Hok Hv. unfold select_step.
  destruct (P !! n) as [s|] eqn:Hs; [|done].
  destruct (decide (i_status s = READY_SUBPICTURE)) as [Hready|Hready]; [|done].
  assert (∀ date, date = registered (dvd_starts P (sel_list v)) →
            i_type s = DVD_SUBPICTURE →
            register_date (i_start s) date
            = registered (dvd_starts P (n :: sel_list v))) as Hlink.
  { intros date -> Hdvd. unfold dvd_starts. simpl. rewrite Hs. simpl.
    by rewrite decide_True. }
  destruct (decide (i_type s = DVD_SUBPICTURE)) as [Hdvd|Hdvd].
  2: { simpl. unfold dvd_starts. simpl. rewrite Hs. simpl. by rewrite decide_False. }
  destruct (d >? i_stop s); [done|]. destruct (d <? i_start s); [done|].
  destruct (b_ephemer s); [|by apply Hlink].
  destruct (sel_ephemer v) as [e|] eqn:He; [|done].
  destruct (ok_ephemer _ _ _ _ Hok e He) as (_ & _ & old & Hold & Hel). rewrite Hold.
  destruct (i_start s <? i_start old); [|by apply Hlink].
  simpl. unfold dvd_starts. simpl. rewrite Hold. simpl.
  destruct Hel as (_ & Hdvd' & _). rewrite decide_True by done.
  simpl. by rewrite Hv.
Qed.

Lemma select_date d P n :
  sel_date (select d P n) = registered (dvd_starts P (sel_list (select d P n))).
Proof.
  induction n as [|n IH]; [done|].
  rewrite select_S. apply select_step_date; [apply select_is_ok|done].
Qed.

(** When no start is 0, the date registered is the least of the starts. *)
Lemma registered_minimum (starts : list Z) :
  Forall (λ t, t ≠ 0) starts → starts ≠ [] →
  registered starts ∈ starts ∧ Forall (λ t, registered starts <= t) starts.
Proof.
  induction 1 as [|t l Ht Hl IH]; [done|]. intros _.
  unfold registered in *. simpl. unfold register_date at 1 3.
  destruct l as [|t' l'].
  - simpl. split; [apply list_elem_of_here|]. by constructor.
  - destruct IH as [Hin Hall]; [done|].
    assert (foldr register_date 0 (t' :: l') ≠ 0) as Hnz.
    { rewrite Forall_forall in Hl. by apply Hl. }
    destruct (Z.eqb_spec (foldr register_date 0 (t' :: l')) 0) as [?|_]; [done|].
    cbn [orb].
    destruct (foldr register_date 0 (t' :: l') >? t) eqn:Hgt; decide_bools.
    + split; [apply list_elem_of_here|]. constructor; [lia|].
      eapply Forall_impl; [exact Hall|]. cbv beta. intros x Hx. lia.
    + split; [by apply list_elem_of_further|]. constructor; [lia|done].
Qed.

(** *** The loop with the pointers *)

Lemma set_next_same s : set_next (p_next s) s = s.
Proof. by destruct s. Qed.

Lemma seen_later d n j s : j ≠ n → seen d (S n) j s = seen d n j s.
Proof.
  intros Hne. unfold seen.
  destruct (decide (j < n)%nat).
  - rewrite !bool_decide_eq_true_2; [done|lia..].
  - rewrite !bool_decide_eq_false_2; [done|lia..].
Qed.

Lemma seen_not_yet d n j s : (n ≤ j)%nat → seen d n j s = s.
Proof. intros Hj. unfold seen. rewrite bool_decide_eq_false_2; [done|lia]. Qed.

Lemma seen_now d n s :
  seen d (S n) n s = if expired d s then set_status DESTROYED_SUBPICTURE s else s.
Proof. unfold seen. rewrite bool_decide_eq_true_2; [done|lia]. Qed.

Lemma slots_current d P n heap s :
  slots d P n heap → P !! n = Some s → heap !! n = Some s.
Proof.
  intros Hsl Hs. destruct (Hsl n s Hs) as (nx & Hh & Hnx).
  rewrite Hh, Hnx, seen_not_yet, set_next_same; [done|lia..].
Qed.

Lemma slots_skip d P n heap :
  slots d P n heap →
  (∀ s, P !! n = Some s → expired d s = false) →
  slots d P (S n) heap.
Proof.
  intros Hsl Hexp j s Hs. destruct (Hsl j s Hs) as (nx & Hh & Hnx).
  exists nx. split; [|intros; apply Hnx; lia].
  destruct (decide (j = n)) as [->|Hne].
  - by rewrite seen_now, (Hexp s Hs), <- (seen_not_yet d n n s).
  - by rewrite seen_later.
Qed.

Lemma slots_link d P n heap x i :
  slots d P n heap → (i < n)%nat → slots d P n (alter (set_next x) i heap).
Proof.
  intros Hsl Hi j s Hs. destruct (Hsl j s Hs) as (nx & Hh & Hnx).
  destruct (decide (i = j)) as [<-|Hne].
  - exists x. rewrite list_lookup_alter_eq, Hh. split; [done|lia].
  - exists nx. by rewrite list_lookup_alter_ne.
Qed.

Lemma slots_destroy d P n heap s :
  slots d P n heap → P !! n = Some s → expired d s = true →
  slots d P (S n) (<[n := set_status DESTROYED_SUBPICTURE s]> heap).
Proof.
  intros Hsl Hs Hexp j s' Hs'. destruct (Hsl j s' Hs') as (nx & Hh & Hnx).
  destruct (decide (j = n)) as [->|Hne].
  - exists (p_next s). rewrite Hs in Hs'. injection Hs' as <-.
    rewrite list_lookup_insert_eq by (by eapply lookup_lt_Some).
    by rewrite seen_now, Hexp.
  - exists nx. rewrite list_lookup_insert_ne by done. rewrite seen_later by done.
    split; [done|]. intros. apply Hnx. lia.
Qed.

Lemma chain_frame heap heap' p l :
  chain heap p l → (∀ j, j ∈ l → heap' !! j = heap !! j) → chain heap' p l.
Proof.
  induction 1 as [|i s l Hs Hc IH]; intros Hsame; [constructor|].
  econstructor.
  - rewrite Hsame; [exact Hs|apply list_elem_of_here].
  - apply IH. intros j Hj. apply Hsame. by apply list_elem_of_further.
Qed.

Lemma chain_link heap p l i s :
  chain heap p l → i ∉ l → heap !! i = Some s →
  chain (alter (set_next p) i heap) (Some i) (i :: l).
Proof.
  intros Hc Hi Hs. econstructor.
  - by rewrite list_lookup_alter_eq, Hs.
  - simpl. apply (chain_frame heap); [done|].
    intros j Hj. rewrite list_lookup_alter_ne; [done|]. by intros ->.
Qed.

Lemma chain_walk heap p l fuel :
  chain heap p l → (length l ≤ fuel)%nat → walk fuel heap p = Some l.
Proof.
  intros Hc. revert fuel. induction Hc as [|i s l Hs Hc IH]; intros fuel Hfuel.
  - by destruct fuel.
  - destruct fuel as [|fuel]; simpl in *; [lia|].
    rewrite Hs, IH; [done|lia].
Qed.

Lemma link_registered st i s :
  st_heap st !! i = Some s →
  register_head (link_at i st)
  = SortState (alter (set_next (p_subpic st)) i (st_heap st)) (Some i) (p_ephemer st)
      (register_date (i_start s) (ephemer_date st)) (st_events st).
Proof.
  intros Hs. unfold register_head, link_at. simpl.
  by rewrite list_lookup_alter_eq, Hs.
Qed.

Lemma seen_start d n j s : i_start (seen d n j s) = i_start s.
Proof. unfold seen. by destruct (_ && _). Qed.

Lemma sort_inv_start d P : sort_inv d P 0 (Selection [] None 0) (sort_start P).
Proof.
  split; try done.
  - intros j s Hs. exists (p_next s). simpl.
    by rewrite seen_not_yet, set_next_same by lia.
  - constructor.
Qed.

Lemma sort_inv_skip d P n v st :
  sort_inv d P n v st →
  (∀ s, P !! n = Some s → expired d s = false) →
  sort_inv d P (S n) v st.
Proof. intros [Hlen Hsl Hch He Hd Hev] Hexp. split; try done. by apply slots_skip. Qed.

Lemma sort_inv_linked d P n v st s eph date :
  select_ok d P n v → sort_inv d P n v st →
  P !! n = Some s → expired d s = false → sel_ephemer v = eph →
  sort_inv d P (S n)
    (Selection (n :: sel_list v) eph date)
    (SortState (alter (set_next (p_subpic st)) n (st_heap st)) (Some n)
       eph date (st_events st)).
Proof.
  intros Hok [Hlen Hsl Hch He Hd Hev] Hs Hexp Heph. split; simpl; try done.
  - by rewrite length_alter.
  - apply slots_link; [|lia]. apply slots_skip; [done|].
    intros s' Hs'. congruence.
  - apply (chain_link _ _ _ _ s); [done| |by eapply slots_current].
    intros Hin. pose proof (ok_list _ _ _ _ Hok) as Hl.
    rewrite Forall_forall in Hl. specialize (Hl n Hin). simpl in Hl. lia.
Qed.

Lemma sort_body_inv d P n v st :
  select_ok d P n v → sort_inv d P n v st →
  sort_inv d P (S n) (select_step d P v n) (sort_body d n st).
Proof.
  intros Hok Hinv. pose proof Hinv as [Hlen Hsl Hch He Hd Hev].
  unfold sort_body, select_step.
  destruct (P !! n) as [s|] eqn:Hs.
  2: { rewrite (lookup_ge_None_2 (st_heap st) n).
       - apply sort_inv_skip; [done|]. intros s' Hs'. congruence.
       - rewrite Hlen. by apply lookup_ge_None_1. }
  rewrite (slots_current _ _ _ _ _ Hsl Hs).
  assert (∀ s', P !! n = Some s' → s' = s) as Hsame by (intros s' Hs'; congruence).
  destruct (decide (i_status s = READY_SUBPICTURE)) as [Hready|Hready].
  2: { apply sort_inv_skip; [done|]. intros s' ->%Hsame. unfold expired.
       by rewrite bool_decide_eq_false_2. }
  destruct (decide (i_type s = DVD_SUBPICTURE)) as [Hdvd|Hdvd].
  2: { unfold link_at. rewrite Hd, He.
       apply (sort_inv_linked d P n v st s); [done..| |done].
       unfold expired. rewrite (bool_decide_eq_false_2 (i_type s = _)) by done.
       by rewrite andb_false_r. }
  destruct (d >? i_stop s) eqn:Hstop.
  { unfold destroy_at. rewrite (slots_current _ _ _ _ _ Hsl Hs).
    unfold vout_DestroySubPicture. cbn [fst snd]. rewrite Hready. simpl.
    split; simpl; try done.
    - by rewrite length_insert.
    - apply slots_destroy; [done..|]. unfold expired.
      by rewrite !bool_decide_eq_true_2, Hstop.
    - apply (chain_frame (st_heap st)); [done|]. intros j Hj.
      rewrite list_lookup_insert_ne; [done|]. intros <-.
      pose proof (ok_list _ _ _ _ Hok) as Hl.
      rewrite Forall_forall in Hl. specialize (Hl n Hj). simpl in Hl. lia.
    - by rewrite Hev. }
  assert (expired d s = false) as Hexp.
  { unfold expired. by rewrite Hstop, andb_false_r. }
  destruct (d <? i_start s) eqn:Hstart.
  { apply sort_inv_skip; [done|]. by intros s' ->%Hsame. }
  rewrite (link_registered st n s) by (by eapply slots_current).
  rewrite Hd, He.
  destruct (b_ephemer s) eqn:Heph.
  2: { by apply (sort_inv_linked d P n v st s). }
  destruct (sel_ephemer v) as [e|] eqn:Hv.
  - destruct (ok_ephemer _ _ _ _ Hok e Hv) as (Hen & Hfresh & old & Hold & _).
    destruct (Hsl e old Hold) as (nx & Hhe & _). rewrite Hold, Hhe.
    cbn [i_start set_next]. rewrite seen_start.
    destruct (i_start s <? i_start old).
    + unfold register_head, link_at. simpl.
      rewrite list_lookup_alter_eq, Hhe. simpl. rewrite seen_start.
      split; simpl; try done.
      * by rewrite length_alter.
      * apply slots_link; [|lia]. apply slots_skip; [done|]. by intros s' ->%Hsame.
      * by apply (chain_link _ _ _ _ _ Hch Hfresh Hhe).
      * by rewrite Hd.
    + by apply (sort_inv_linked d P n v st s).
  - split; simpl; try done.
    apply slots_skip; [done|]. by intros s' ->%Hsame.
Qed.

Lemma sort_prefix_inv d P n : sort_inv d P n (select d P n) (sort_prefix d P n).
Proof.
  induction n as [|n IH]; [apply sort_inv_start|].
  rewrite select_S, sort_prefix_S. apply sort_body_inv; [apply select_is_ok|done].
Qed.

(** *** The whole function *)

Lemma eligible_not_expired d s : eligible_ephemer d s → expired d s = false.
Proof.
  intros (_ & _ & [_ Hstop] & _). unfold expired.
  destruct (Z.gtb_spec d (i_stop s)); [lia|]. by rewrite andb_false_r.
Qed.

Lemma sort_scan_state d P :
  sort_inv d P (length P) (select d P (length P)) (sort_scan d P).
Proof. apply sort_prefix_inv. Qed.

Lemma sort_outcome (p_vout : vout_thread_t) (d : Z) :
  subpictures_of (vout_SortSubPictures p_vout d)
  = Some (outcome d (p_subpicture p_vout)).1
  ∧ so_events (vout_SortSubPictures p_vout d) = []
  ∧ length (so_heap (vout_SortSubPictures p_vout d)) = length (p_subpicture p_vout)
  ∧ ∀ j s, p_subpicture p_vout !! j = Some s →
      ∃ nx, so_heap (vout_SortSubPictures p_vout d) !! j
            = Some (set_next nx (left_as d (outcome d (p_subpicture p_vout)).2 j s)).
Proof.
  destruct p_vout as [out ren P]. unfold vout_SortSubPictures. simpl.
  pose proof (sort_scan_state d P) as [Hlen Hsl Hch He Hd Hev].
  pose proof (select_is_ok d P (length P)) as Hok.
  assert (∀ j s, P !! j = Some s →
            seen d (length P) j s = left_as d None j s) as Hseen.
  { intros j s Hs. unfold seen, left_as.
    rewrite bool_decide_eq_true_2 by (by eapply lookup_lt_Some).
    rewrite (bool_decide_eq_false_2 (None = Some j)) by done.
    by rewrite orb_false_r. }
  unfold sort_finish, outcome, subpictures_of. rewrite He, Hd.
  destruct (sel_ephemer (select d P (length P))) as [e|] eqn:Hv.
  2: { simpl. split_and!; [|done..|].
       - apply chain_walk; [done|]. rewrite Hlen.
         pose proof (ok_size _ _ _ _ Hok). lia.
       - intros j s Hs. destruct (Hsl j s Hs) as (nx & Hh & _).
         exists nx. by rewrite <- Hseen. }
  destruct (ok_ephemer _ _ _ _ Hok e Hv) as (Hen & Hfresh & se & Hse & Hel).
  pose proof (ok_size _ _ _ _ Hok) as Hsize. rewrite Hv in Hsize.
  destruct (Hsl e se Hse) as (nx & Hhe & _).
  rewrite (Hseen e se Hse) in Hhe. unfold left_as in Hhe.
  rewrite (eligible_not_expired d se Hel) in Hhe.
  rewrite (bool_decide_eq_false_2 (None = Some e)) in Hhe by done. simpl in Hhe.
  rewrite Hhe, Hse. cbn [i_start set_next].
  destruct (i_start se <? sel_date (select d P (length P))) eqn:Hstale.
  - unfold destroy_at. rewrite Hhe. unfold vout_DestroySubPicture. cbn [fst snd].
    destruct Hel as (Hready & _). cbn [i_status set_next]. rewrite Hready. simpl.
    split_and!.
    + apply chain_walk; [|rewrite length_insert; lia].
      apply (chain_frame (st_heap (sort_scan d P))); [done|].
      intros j Hj. rewrite list_lookup_insert_ne; [done|]. by intros <-.
    + by rewrite Hev.
    + by rewrite length_insert.
    + intros j s Hs. destruct (decide (j = e)) as [->|Hne].
      * exists nx. rewrite list_lookup_insert_eq by lia.
        rewrite Hse in Hs. injection Hs as <-. unfold left_as.
        rewrite (bool_decide_eq_true_2 (Some e = Some e)) by done.
        by rewrite orb_true_r.
      * destruct (Hsl j s Hs) as (nx' & Hh & _). exists nx'.
        rewrite list_lookup_insert_ne by done. rewrite Hh, (Hseen j s Hs).
        unfold left_as. rewrite (bool_decide_eq_false_2 (None = Some j)) by done.
        rewrite (bool_decide_eq_false_2 (Some e = Some j)) by (by intros [= ->]).
        done.
  - unfold link_at. simpl. split_and!.
    + apply chain_walk; [|rewrite length_alter; simpl; lia].
      by apply (chain_link _ _ _ _ _ Hch Hfresh Hhe).
    + done.
    + by rewrite length_alter.
    + intros j s Hs. destruct (Hsl j s Hs) as (nx' & Hh & _).
      destruct (decide (e = j)) as [<-|Hne].
      * exists (p_subpic (sort_scan d P)).
        rewrite list_lookup_alter_eq, Hh. simpl. by rewrite (Hseen e s Hs).
      * exists nx'. rewrite list_lookup_alter_ne by done. by rewrite Hh, (Hseen j s Hs).
Qed.

Lemma walk_head fuel heap p l : walk fuel heap p = Some l → head l = p.
Proof.
  destruct p as [i|]; [|by destruct fuel; intros [= <-]].
  destruct fuel as [|fuel]; [done|]. simpl. destruct (heap !! i) as [s|]; [|done].
  destruct (walk fuel heap (p_next s)); simpl; [|done]. by intros [= <-].
Qed.

Lemma outcome_list d P j s :
  P !! j = Some s →
  j ∈ (outcome d P).1
  ↔ shown d s ∧ (outcome d P).2 ≠ Some j.
Proof.
  intros Hs. pose proof (select_is_ok d P (length P)) as Hok.
  pose proof (ok_member _ _ _ _ Hok j s Hs) as Hm.
  pose proof (lookup_lt_Some _ _ _ Hs) as Hj.
  unfold outcome.
  destruct (sel_ephemer (select d P (length P))) as [e|] eqn:Hv; simpl.
  2: { split.
       - intros Hin. split; [|done]. by apply Hm; left.
       - intros [Hsh _]. destruct (proj2 Hm) as [?|?]; done. }
  destruct (ok_ephemer _ _ _ _ Hok e Hv) as (_ & Hfresh & se & Hse & Hel).
  rewrite Hse. destruct (i_start se <? _); simpl.
  - split.
    + intros Hin. split; [by apply Hm; left|]. by intros [= ->].
    + intros [Hsh Hne]. destruct (proj2 Hm) as [?|?]; [done..|congruence].
  - rewrite elem_of_cons. split.
    + intros [->|Hin]; (split; [|done]); apply Hm; [by right|by left].
    + intros [Hsh _]. destruct (proj2 Hm) as [?|[= ->]]; [done|by right|by left].
Qed.

Lemma outcome_gone d P e :
  (outcome d P).2 = Some e →
  sel_ephemer (select d P (length P)) = Some e
  ∧ ∃ se, P !! e = Some se ∧ eligible_ephemer d se
          ∧ i_start se < sel_date (select d P (length P)).
Proof.
  pose proof (select_is_ok d P (length P)) as Hok. unfold outcome.
  destruct (sel_ephemer (select d P (length P))) as [e'|] eqn:Hv; simpl; [|done].
  destruct (ok_ephemer _ _ _ _ Hok e' Hv) as (_ & _ & se & Hse & Hel).
  rewrite Hse. destruct (i_start se <? _) eqn:Hlt; simpl; [|done].
  intros [= ->]. split; [done|]. exists se. split_and!; [done..|]. by apply Z.ltb_lt.
Qed.

(** C3, as the code has it. A ready DVD subpicture whose stop is before the
    display date is destroyed by the call and is not in the list. One whose
    start is after the date is left alone. One with the date between its
    start and its stop, both included, is not taken for expired: it is in the
    list and ready, or else it is the ephemer subpicture the loop kept, it
    starts before the date the loop registered, and it is destroyed for that
    reason. A subpicture that is not ephemer is always in the first case. *)
Theorem sort_expiry (p_vout : vout_thread_t) (d : Z) (i : nat) (s : subpicture_t) :
  p_subpicture p_vout !! i = Some s →
  i_status s = READY_SUBPICTURE →
  i_type s = DVD_SUBPICTURE →
  ∃ l s',
    subpictures_of (vout_SortSubPictures p_vout d) = Some l
    ∧ so_heap (vout_SortSubPictures p_vout d) !! i = Some s'
    ∧ (i_stop s < d → (i ∉ l) ∧ i_status s' = DESTROYED_SUBPICTURE)
    ∧ (d < i_start s → d <= i_stop s → (i ∉ l) ∧ i_status s' = READY_SUBPICTURE)
    ∧ (i_start s <= d <= i_stop s →
         (i ∈ l ∧ i_status s' = READY_SUBPICTURE)
         ∨ (b_ephemer s = true
            ∧ p_ephemer (sort_scan d (p_subpicture p_vout)) = Some i
            ∧ i_start s < ephemer_date (sort_scan d (p_subpicture p_vout))
            ∧ (i ∉ l) ∧ i_status s' = DESTROYED_SUBPICTURE))
    ∧ (i_start s <= d <= i_stop s → b_ephemer s = false →
         i ∈ l ∧ i_status s' = READY_SUBPICTURE).
Proof.
  intros Hs Hready Hdvd.
  destruct (sort_outcome p_vout d) as (Hwalk & _ & _ & Hheap).
  destruct (Hheap i s Hs) as (nx & Hi).
  pose proof (outcome_list d (p_subpicture p_vout) i s Hs) as Hin.
  pose proof (sort_scan_state d (p_subpicture p_vout)) as [_ _ _ He Hd _].
  exists (outcome d (p_subpicture p_vout)).1,
         (set_next nx (left_as d (outcome d (p_subpicture p_vout)).2 i s)).
  assert (∀ e, (outcome d (p_subpicture p_vout)).2 = Some e →
               e = i → i_start s <= d <= i_stop s ∧ b_ephemer s = true
               ∧ p_ephemer (sort_scan d (p_subpicture p_vout)) = Some i
               ∧ i_start s < ephemer_date (sort_scan d (p_subpicture p_vout))) as Hgone.
  { intros e Hg ->. destruct (outcome_gone _ _ _ Hg) as (Hv & se & Hse & Hel & Hlt).
    rewrite Hs in Hse. injection Hse as <-. destruct Hel as (_ & _ & ? & ?).
    by rewrite He, Hd. }
  assert (i_stop s < d → expired d s = true) as Hexp.
  { intros Hlt. unfold expired. rewrite !bool_decide_eq_true_2 by done.
    simpl. rewrite Z.gtb_ltb. by apply Z.ltb_lt. }
  assert (d <= i_stop s → expired d s = false) as Hnexp.
  { intros Hle. unfold expired. rewrite Z.gtb_ltb.
    rewrite (proj2 (Z.ltb_ge _ _) Hle). by rewrite andb_false_r. }
  assert (∀ b : bool, i_status (set_next nx (if b then set_status DESTROYED_SUBPICTURE s
                                            else s))
                      = if b then DESTROYED_SUBPICTURE else READY_SUBPICTURE) as Hst.
  { intros [|]; [done|]. by rewrite <- Hready. }
  unfold left_as. rewrite Hst.
  split_and!; [done..| | | |].
  - intros Hlt. rewrite (Hexp Hlt). split; [|done].
    rewrite Hin. intros [[_ [?|?]] _]; [done|lia].
  - intros Hearly Hle. rewrite (Hnexp Hle). split.
    + rewrite Hin. intros [[_ [?|?]] _]; [done|lia].
    + rewrite bool_decide_eq_false_2; [done|].
      intros Hg. destruct (Hgone i Hg eq_refl) as (? & _). lia.
  - intros [Hlo Hhi]. rewrite (Hnexp Hhi). simpl.
    destruct (decide ((outcome d (p_subpicture p_vout)).2 = Some i)) as [Hg|Hg].
    + right. destruct (Hgone i Hg eq_refl) as (_ & ? & ? & ?).
      rewrite bool_decide_eq_true_2 by done. split_and!; [done..| |done].
      rewrite Hin. by intros [_ ?].
    + left. rewrite bool_decide_eq_false_2 by done. split; [|done].
      apply Hin. split; [|done]. split; [done|]. right. lia.
  - intros [Hlo Hhi] Hplain. rewrite (Hnexp Hhi). simpl.
    assert ((outcome d (p_subpicture p_vout)).2 ≠ Some i) as Hg.
    { intros Hg. destruct (Hgone i Hg eq_refl) as (_ & ? & _). congruence. }
    rewrite bool_decide_eq_false_2 by done. split; [|done].
    apply Hin. split; [|done]. split; [done|]. right. lia.
Qed.

Lemma sort_expiry_witness :
  ∃ l s',
    subpictures_of (vout_SortSubPictures (vout_of heap_stale) 31) = Some l
    ∧ so_heap (vout_SortSubPictures (vout_of heap_stale) 31) !! 0%nat = Some s'
    ∧ (i_stop (dvd true 10 20) < 31 → (0%nat ∉ l) ∧ i_status s' = DESTROYED_SUBPICTURE)
    ∧ (31 < i_start (dvd true 10 20) → 31 <= i_stop (dvd true 10 20) →
       (0%nat ∉ l) ∧ i_status s' = READY_SUBPICTURE)
    ∧ (i_start (dvd true 10 20) <= 31 <= i_stop (dvd true 10 20) →
         (0%nat ∈ l ∧ i_status s' = READY_SUBPICTURE)
         ∨ (b_ephemer (dvd true 10 20) = true
            ∧ p_ephemer (sort_scan 31 (p_subpicture (vout_of heap_stale))) = Some 0%nat
            ∧ i_start (dvd true 10 20)
              < ephemer_date (sort_scan 31 (p_subpicture (vout_of heap_stale)))
            ∧ (0%nat ∉ l) ∧ i_status s' = DESTROYED_SUBPICTURE))
    ∧ (i_start (dvd true 10 20) <= 31 <= i_stop (dvd true 10 20) →
       b_ephemer (dvd true 10 20) = false →
       0%nat ∈ l ∧ i_status s' = READY_SUBPICTURE).
Proof.
  apply (sort_expiry (vout_of heap_stale) 31 0 (dvd true 10 20)); reflexivity.
Defined.

(** At date 20 the ephemer subpicture of [heap_stale] is at its stop; the
    call destroys it, the other one being younger. *)
Lemma ephemer_destroyed_at_stop : ¬ stays_at_stop (vout_of heap_stale) 0.
Proof.
  intros Hclaim.
  by apply (Hclaim (dvd true 10 20) (set_status DESTROYED_SUBPICTURE (dvd true 10 20))).
Qed.

(** *** The ephemer subpicture that is replaced *)

Lemma sort_body_demotes d P n v st e :
  select_ok d P n v → sort_inv d P n v st →
  p_ephemer st = Some e → p_ephemer (sort_body d n st) ≠ Some e →
  ∃ s se se',
    P !! n = Some s ∧ P !! e = Some se ∧ i_start s < i_start se
    ∧ p_ephemer (sort_body d n st) = Some n
    ∧ p_subpic (sort_body d n st) = Some e
    ∧ st_heap (sort_body d n st) !! e = Some se'
    ∧ i_status se' = READY_SUBPICTURE
    ∧ p_next se' = p_subpic st.
Proof.
  intros Hok [Hlen Hsl Hch He Hd Hev] Hcand.
  rewrite Hcand in He. symmetry in He.
  destruct (ok_ephemer _ _ _ _ Hok e He) as (Hen & Hfresh & old & Hold & Hel).
  destruct (Hsl e old Hold) as (nx & Hhe & _).
  unfold seen in Hhe. rewrite (eligible_not_expired d old Hel), andb_false_r in Hhe.
  unfold sort_body.
  destruct (st_heap st !! n) as [s'|] eqn:Hn; [|done].
  destruct (P !! n) as [s|] eqn:Hs.
  2: { apply lookup_ge_None_1 in Hs. apply lookup_lt_Some in Hn. lia. }
  rewrite (slots_current _ _ _ _ _ Hsl Hs) in Hn. injection Hn as <-.
  destruct (decide (i_status s = READY_SUBPICTURE)); [|done].
  destruct (decide (i_type s = DVD_SUBPICTURE)); [|by unfold link_at].
  destruct (d >? i_stop s).
  { unfold destroy_at. by destruct (st_heap st !! n). }
  destruct (d <? i_start s); [done|].
  rewrite (link_registered st n s) by (by eapply slots_current).
  destruct (b_ephemer s); [|done]. rewrite Hcand, Hhe. cbn [i_start set_next].
  destruct (i_start s <? i_start old) eqn:Hlt; [|done].
  intros _. exists s, old, (set_next (p_subpic st) old).
  unfold register_head, link_at. simpl.
  rewrite list_lookup_alter_eq, Hhe. simpl.
  destruct Hel as (Hready & _). apply Z.ltb_lt in Hlt.
  split_and!; try done. by rewrite list_lookup_alter_eq, Hhe.
Qed.

(** The list is C, B: C is in it and is still ready. *)
Lemma freshest_does_not_win : ¬ freshest_wins heap_abc 20.
Proof.
  intros (l & Hl & _ & Hgone). vm_compute in Hl. injection Hl as <-.
  destruct (Hgone 2%nat) as [Hin _]; [by right|].
  apply Hin, list_elem_of_here.
Qed.

(** Whatever the order of A, B and C in the heap, the one that starts at 10
    is destroyed and the two others are in the list. *)
Example abc_in_any_order :
  (λ heap, let r := vout_SortSubPictures (vout_of heap) 20 in
           (subpictures_of r,
            (λ s, (i_start s, i_status s)) <$> so_heap r)) <$> permutations heap_abc
  = [ (Some [2; 1]%nat, [(10, DESTROYED_SUBPICTURE); (20, READY_SUBPICTURE); (15, READY_SUBPICTURE)]);
      (Some [2; 0]%nat, [(20, READY_SUBPICTURE); (10, DESTROYED_SUBPICTURE); (15, READY_SUBPICTURE)]);
      (Some [1; 0]%nat, [(20, READY_SUBPICTURE); (15, READY_SUBPICTURE); (10, DESTROYED_SUBPICTURE)]);
      (Some [2; 1]%nat, [(10, DESTROYED_SUBPICTURE); (15, READY_SUBPICTURE); (20, READY_SUBPICTURE)]);
      (Some [2; 0]%nat, [(15, READY_SUBPICTURE); (10, DESTROYED_SUBPICTURE); (20, READY_SUBPICTURE)]);
      (Some [0; 1]%nat, [(15, READY_SUBPICTURE); (20, READY_SUBPICTURE); (10, DESTROYED_SUBPICTURE)]) ].
Proof. reflexivity. Qed.

(** C1, as the code has it. At every turn of the loop the ephemer subpicture
    kept is, among the ephemer DVD subpictures to show met so far, the one
    that starts earliest (the first of them when several start together);
    none is kept only if none was met. When a turn replaces it, by a
    subpicture that starts earlier, the one replaced becomes the head of the
    list and is still ready: it is linked, not destroyed. With A, B and C
    starting at 10, 20 and 15, the loop keeps A; the call destroys A and hands
    back the list C, B, both still ready. *)
Theorem ephemer_kept_is_earliest (d : Z) (P : list subpicture_t) (n : nat) :
  (∀ e, p_ephemer (sort_prefix d P n) = Some e →
     ∃ se, P !! e = Some se ∧ eligible_ephemer d se ∧ (e < n)%nat
           ∧ ∀ j s, (j < n)%nat → P !! j = Some s → eligible_ephemer d s →
                    i_start se <= i_start s ∧ (i_start s = i_start se → (e ≤ j)%nat))
  ∧ (p_ephemer (sort_prefix d P n) = None →
     ∀ j s, (j < n)%nat → P !! j = Some s → ¬ eligible_ephemer d s)
  ∧ (∀ e, p_ephemer (sort_prefix d P n) = Some e →
          p_ephemer (sort_prefix d P (S n)) ≠ Some e →
     ∃ s se se',
       P !! n = Some s ∧ P !! e = Some se ∧ i_start s < i_start se
       ∧ p_ephemer (sort_prefix d P (S n)) = Some n
       ∧ p_subpic (sort_prefix d P (S n)) = Some e
       ∧ st_heap (sort_prefix d P (S n)) !! e = Some se'
       ∧ i_status se' = READY_SUBPICTURE
       ∧ p_next se' = p_subpic (sort_prefix d P n))
  ∧ p_ephemer (sort_scan 20 heap_abc) = Some 0%nat
  ∧ subpictures_of (vout_SortSubPictures (vout_of heap_abc) 20) = Some [2; 1]%nat
  ∧ i_status <$> so_heap (vout_SortSubPictures (vout_of heap_abc) 20)
    = [DESTROYED_SUBPICTURE; READY_SUBPICTURE; READY_SUBPICTURE].
Proof.
  pose proof (sort_prefix_inv d P n) as Hinv.
  pose proof (select_earliest d P n) as Hearly. unfold earliest_ephemer in Hearly.
  rewrite <- (inv_ephemer _ _ _ _ _ Hinv) in Hearly.
  split_and!; [| | |reflexivity..].
  - intros e He. by rewrite He in Hearly.
  - intros He. by rewrite He in Hearly.
  - intros e He. rewrite sort_prefix_S.
    apply (sort_body_demotes d P n (select d P n)); [apply select_is_ok|done..].
Qed.

Lemma ephemer_kept_is_earliest_witness :
  ∃ s se se',
    heap_bac !! 1%nat = Some s ∧ heap_bac !! 0%nat = Some se ∧ i_start s < i_start se
    ∧ p_ephemer (sort_prefix 20 heap_bac 2) = Some 1%nat
    ∧ p_subpic (sort_prefix 20 heap_bac 2) = Some 0%nat
    ∧ st_heap (sort_prefix 20 heap_bac 2) !! 0%nat = Some se'
    ∧ i_status se' = READY_SUBPICTURE
    ∧ p_next se' = p_subpic (sort_prefix 20 heap_bac 1).
Proof.
  destruct (ephemer_kept_is_earliest 20 heap_bac 1) as (_ & _ & Hdemote & _).
  apply (Hdemote 0%nat).
  - reflexivity.
  - discriminate.
Defined.

(** *** The date registered and the end of the call *)

Lemma elem_of_dvd_starts (P : list subpicture_t) (l : list nat) (t : Z) :
  t ∈ dvd_starts P l
  ↔ ∃ j s, j ∈ l ∧ P !! j = Some s ∧ i_type s = DVD_SUBPICTURE ∧ i_start s = t.
Proof.
  unfold dvd_starts. rewrite list_elem_of_omap. split.
  - intros (j & Hj & Hf). destruct (P !! j) as [s|] eqn:Hs; simpl in Hf; [|done].
    destruct (decide (i_type s = DVD_SUBPICTURE)); [|done].
    injection Hf as <-. by exists j, s.
  - intros (j & s & Hj & Hs & Hdvd & <-). exists j. split; [done|].
    rewrite Hs. simpl. by rewrite decide_True.
Qed.

(** A start of 0 is taken for no date at all: with starts 0 and 5 the date
    is 5. A subpicture that is not a DVD subpicture is put in the list and
    its start is not looked at: with a DVD subpicture that starts at 10 and a
    text that starts at 3 the date is 10. *)
Lemma date_is_not_least_start :
  ¬ date_is_least_start [dvd false 0 100; dvd false 5 100] 7
  ∧ ¬ date_is_least_start [dvd false 10 100; text 3 100] 10.
Proof.
  split.
  - intros (l & Hl & _ & Hmin). vm_compute in Hl. injection Hl as <-.
    assert (0%nat ∈ [1; 0]%nat) as Hin by (apply list_elem_of_further, list_elem_of_here).
    pose proof (Hmin 0%nat (dvd false 0 100) Hin eq_refl) as Hle.
    vm_compute in Hle. by apply Hle.
  - intros (l & Hl & _ & Hmin). vm_compute in Hl. injection Hl as <-.
    assert (1%nat ∈ [1; 0]%nat) as Hin by apply list_elem_of_here.
    pose proof (Hmin 1%nat (text 3 100) Hin eq_refl) as Hle.
    vm_compute in Hle. by apply Hle.
Qed.

(** C2, as the code has it. The date the loop registers comes from the DVD
    subpictures of the list it builds, the ones put there as they are met
    and the ephemer ones put there when replaced: it is 0 when there is none
    and, when none of them starts at 0, the least of their starts. After the
    loop, an ephemer subpicture that was kept and starts before that date is
    destroyed and the list is handed back without it; otherwise it is put in
    front of the list and is what the call hands back. *)
Theorem ephemer_date_is_least_dvd_start (p_vout : vout_thread_t) (d : Z) :
  ∃ l,
    walk (length (p_subpicture p_vout)) (st_heap (sort_scan d (p_subpicture p_vout)))
         (p_subpic (sort_scan d (p_subpicture p_vout))) = Some l
    ∧ ephemer_date (sort_scan d (p_subpicture p_vout))
      = registered (dvd_starts (p_subpicture p_vout) l)
    ∧ (dvd_starts (p_subpicture p_vout) l = [] →
       ephemer_date (sort_scan d (p_subpicture p_vout)) = 0)
    ∧ (dvd_starts (p_subpicture p_vout) l ≠ [] →
       Forall (λ t, t ≠ 0) (dvd_starts (p_subpicture p_vout) l) →
       ephemer_date (sort_scan d (p_subpicture p_vout)) ∈ dvd_starts (p_subpicture p_vout) l
       ∧ Forall (λ t, ephemer_date (sort_scan d (p_subpicture p_vout)) <= t)
                (dvd_starts (p_subpicture p_vout) l))
    ∧ (∀ t, t ∈ dvd_starts (p_subpicture p_vout) l
            ↔ ∃ j s, j ∈ l ∧ p_subpicture p_vout !! j = Some s
                     ∧ i_type s = DVD_SUBPICTURE ∧ i_start s = t)
    ∧ (p_ephemer (sort_scan d (p_subpicture p_vout)) = None →
       subpictures_of (vout_SortSubPictures p_vout d) = Some l)
    ∧ (∀ e se,
         p_ephemer (sort_scan d (p_subpicture p_vout)) = Some e →
         p_subpicture p_vout !! e = Some se →
         (i_start se < ephemer_date (sort_scan d (p_subpicture p_vout)) →
            subpictures_of (vout_SortSubPictures p_vout d) = Some l
            ∧ (e ∉ l)
            ∧ i_status <$> so_heap (vout_SortSubPictures p_vout d) !! e
              = Some DESTROYED_SUBPICTURE)
         ∧ (ephemer_date (sort_scan d (p_subpicture p_vout)) <= i_start se →
            subpictures_of (vout_SortSubPictures p_vout d) = Some (e :: l)
            ∧ so_result (vout_SortSubPictures p_vout d) = Some e
            ∧ i_status <$> so_heap (vout_SortSubPictures p_vout d) !! e
              = Some READY_SUBPICTURE)).
Proof.
  pose proof (sort_scan_state d (p_subpicture p_vout)) as [Hlen Hsl Hch He Hd Hev].
  pose proof (select_is_ok d (p_subpicture p_vout) (length (p_subpicture p_vout))) as Hok.
  destruct (sort_outcome p_vout d) as (Hwalk & _ & _ & Hheap).
  exists (sel_list (select d (p_subpicture p_vout) (length (p_subpicture p_vout)))).
  rewrite Hd, He, select_date.
  split; [|split; [|split; [|split; [|split; [|split]]]]].
  - apply chain_walk; [done|]. pose proof (ok_size _ _ _ _ Hok). lia.
  - done.
  - by intros ->.
  - intros Hne Hnz. by apply registered_minimum.
  - apply elem_of_dvd_starts.
  - intros Hv. rewrite Hwalk. unfold outcome. by rewrite Hv.
  - intros e se Hv Hse.
    destruct (ok_ephemer _ _ _ _ Hok e Hv) as (_ & Hfresh & se' & Hse' & Hel).
    rewrite Hse in Hse'. injection Hse' as <-.
    destruct (Hheap e se Hse) as (nx & Hafter).
    rewrite Hwalk in *. revert Hafter. unfold outcome, left_as.
    rewrite Hv, Hse, (eligible_not_expired d se Hel), select_date.
    destruct Hel as (Hready & _). intros Hafter. split.
    + intros Hlt. rewrite (proj2 (Z.ltb_lt _ _) Hlt) in *. simpl in *.
      rewrite (bool_decide_eq_true_2 (Some e = Some e)) in Hafter by done.
      split_and!; [done..|]. by rewrite Hafter.
    + intros Hge. rewrite (proj2 (Z.ltb_ge _ _) Hge) in *. simpl in *.
      split_and!; [done| |].
      * pose proof (walk_head _ _ _ _ Hwalk) as Hhead.
        unfold outcome in Hhead. rewrite Hv, Hse, select_date in Hhead.
        rewrite (proj2 (Z.ltb_ge _ _) Hge) in Hhead. by simpl in Hhead.
      * rewrite Hafter. simpl. by rewrite Hready.
Qed.

Lemma ephemer_date_is_least_dvd_start_witness :
  ephemer_date (sort_scan 20 heap_stale) = 15
  ∧ subpictures_of (vout_SortSubPictures (vout_of heap_stale) 20) = Some [1%nat]
  ∧ i_status <$> so_heap (vout_SortSubPictures (vout_of heap_stale) 20) !! 0%nat
    = Some DESTROYED_SUBPICTURE.
Proof.
  destruct (ephemer_date_is_least_dvd_start (vout_of heap_stale) 20)
    as (l & Hl & _ & _ & _ & _ & _ & Hend).
  vm_compute in Hl. injection Hl as <-.
  destruct (Hend 0%nat (dvd true 10 20) eq_refl eq_refl) as [Hstale _].
  split; [reflexivity|]. destruct Hstale as (Hlist & _ & Hstatus).
  - vm_compute. reflexivity.
  - split; [exact Hlist|exact Hstatus].
Defined.

(** * Further properties *)

(** ** Allocation: the path through the allocator *)

Lemma first_at_Exists (P : subpicture_t → Prop) l i : first_at P l i → Exists P l.
Proof.
  intros (s & Hs & HP & _). apply Exists_exists. exists s.
  split; [by eapply list_elem_of_lookup_2|done].
Qed.

Lemma first_at_lookup (P : subpicture_t → Prop) l i :
  first_at P l i → ∃ s, l !! i = Some s ∧ P s.
Proof. intros (s & Hs & HP & _). by exists s. Qed.

(** The call when no destroyed subpicture can be reused and the subpicture
    [p] is the one taken; [freed] is the [free] made on the way, if any. *)
Lemma create_taken memalign heap type size f d p :
  look_for_place type size heap 0 None None = Scanned f d →
  match f with Some _ => f | None => d end = Some p →
  vout_CreateSubPicture memalign heap type size
  = let freed := match f with
                 | None => [Free (heap !! p ≫= p_data)]
                 | Some _ => []
                 end in
    match allocated memalign type size with
    | Some b =>
        Created (Some p) (alter (prepared type size b) p heap)
          ([Lock] ++ freed ++ asked_events type size ++ [Unlock])
    | None =>
        Created None (alter emptied p heap)
          ([Lock] ++ freed ++ asked_events type size ++ [ErrAllocFailed; Unlock])
    end.
Proof.
  intros Hlook Hp. rewrite (create_scanned _ _ _ _ _ _ Hlook).
  unfold allocated, asked_events.
  destruct f as [f|], d as [d|]; simplify_eq; cbn zeta iota beta;
    destruct type; simpl; try done;
    destruct (memalign _ _); done.
Qed.

(** The subpicture taken on that path: the first free one, or the first
    destroyed one when none is free. *)
Lemma scanned_taken (type : subpicture_type) (size : Z) heap f d :
  look_for_place type size heap 0 None None = Scanned f d →
  Forall (λ s, ¬ reusable type size s) heap
  ∧ match f, d with
    | Some p, _ => first_at is_free heap p
    | None, Some p => Forall (λ s, ¬ is_free s) heap ∧ first_at is_destroyed heap p
    | None, None => Forall (λ s, ¬ is_free s) heap ∧ Forall (λ s, ¬ is_destroyed s) heap
    end.
Proof.
  intros Hlook. pose proof (look_for_place_spec type size heap 0 None None) as Hspec.
  rewrite Hlook in Hspec. destruct Hspec as (Hall & Hf & Hd). split; [done|].
  unfold remembered in Hf, Hd.
  destruct f as [f|].
  - by destruct Hf as (i & -> & Hi).
  - destruct d as [d|]; [|done]. by destruct Hd as (i & -> & Hi).
Qed.

(** X1. The call hands back a subpicture exactly when some destroyed
    subpicture can be reused as it is, or when some subpicture is free or
    destroyed and the allocator gives a block for the type asked for (it is
    not even asked for a type that is neither text nor DVD). *)
Theorem create_succeeds_iff (memalign : Z → Z → option buffer)
    (heap : list subpicture_t) (type : subpicture_type) (size : Z) :
  is_Some (cr_result (vout_CreateSubPicture memalign heap type size))
  ↔ Exists (reusable type size) heap
    ∨ (Exists (λ s, is_free s ∨ is_destroyed s) heap
       ∧ is_Some (allocated memalign type size)).
Proof.
  pose proof (look_for_place_spec type size heap 0 None None) as Hspec.
  destruct (look_for_place type size heap 0 None None) as [r|f d] eqn:Hlook.
  - destruct Hspec as (i & -> & Hfirst).
    unfold vout_CreateSubPicture. rewrite Hlook. simpl. split; [|by eauto].
    intros _. left. by eapply first_at_Exists.
  - destruct (scanned_taken _ _ _ _ _ Hlook) as (Hnone & Htaken).
    assert (¬ Exists (reusable type size) heap) as Hno.
    { intros (s & Hin & Hre)%Exists_exists. rewrite Forall_forall in Hnone.
      by apply (Hnone s Hin). }
    destruct (match f with Some _ => f | None => d end) as [p|] eqn:Hp.
    + rewrite (create_taken _ _ _ _ _ _ p Hlook Hp). cbn zeta.
      assert (Exists (λ s, is_free s ∨ is_destroyed s) heap) as Hex.
      { destruct f as [f|]; simplify_eq.
        - eapply Exists_impl; [by eapply first_at_Exists|]. by left.
        - destruct Htaken as [_ Hd].
          eapply Exists_impl; [by eapply first_at_Exists|]. by right. }
      destruct (allocated memalign type size) as [b|]; simpl.
      * split; [|by eauto]. intros _. right. split; [done|by eauto].
      * split; [by intros [? ?]|]. intros [?|[_ [? ?]]]; done.
    + destruct f, d; simplify_eq. destruct Htaken as [Hf Hd].
      unfold vout_CreateSubPicture. rewrite Hlook. simpl. split; [by intros [? ?]|].
      intros [?|[(s & Hin & Hs)%Exists_exists _]]; [done|].
      rewrite Forall_forall in Hf, Hd. destruct Hs; [by destruct (Hf s Hin)|by destruct (Hd s Hin)].
Qed.

(** X2. When no destroyed subpicture can be reused as it is and some
    subpicture is free, the first free one is taken and nothing is freed:
    it is prepared with the new block, or, when the allocator gives none,
    left free, empty and without data, and the call hands back nothing. *)
Theorem create_takes_first_free (memalign : Z → Z → option buffer)
    (heap : list subpicture_t) (type : subpicture_type) (size : Z) (p : nat) :
  Forall (λ s, ¬ reusable type size s) heap →
  first_at is_free heap p →
  vout_CreateSubPicture memalign heap type size
  = match allocated memalign type size with
    | Some b =>
        Created (Some p) (alter (prepared type size b) p heap)
          ([Lock] ++ asked_events type size ++ [Unlock])
    | None =>
        Created None (alter emptied p heap)
          ([Lock] ++ asked_events type size ++ [ErrAllocFailed; Unlock])
    end.
Proof.
  intros Hnone Hfree.
  pose proof (look_for_place_spec type size heap 0 None None) as Hspec.
  destruct (look_for_place type size heap 0 None None) as [r|f d] eqn:Hlook.
  { destruct Hspec as (i & _ & Hfirst). by destruct (no_reusable_no_first _ _ _ _ Hnone Hfirst). }
  destruct (scanned_taken _ _ _ _ _ Hlook) as (_ & Htaken).
  destruct f as [f|].
  - rewrite (first_at_unique _ _ _ _ Hfree Htaken).
    by rewrite (create_taken _ _ _ _ _ _ f Hlook eq_refl).
  - assert (Forall (λ s, ¬ is_free s) heap) as Hno by (by destruct d; destruct Htaken).
    destruct (first_at_lookup _ _ _ Hfree) as (s & Hs & Hfs).
    by destruct (Forall_lookup_1 _ _ _ _ Hno Hs).
Qed.

Lemma create_takes_first_free_witness :
  vout_CreateSubPicture memalign_ok heap_free DVD_SUBPICTURE 100
  = Created (Some 2%nat) (alter (prepared DVD_SUBPICTURE 100 (Buffer 16384 [0; 0])) 2%nat heap_free)
      [Lock; Memalign 16 100; Unlock]
  ∧ vout_CreateSubPicture memalign_fails heap_free TEXT_SUBPICTURE 100
    = Created None (alter emptied 2%nat heap_free)
        [Lock; Memalign 16 101; ErrAllocFailed; Unlock].
Proof.
  assert (∀ type, Forall (λ s, ¬ reusable type 100 s) heap_free) as Hnone.
  { intros type. repeat constructor; intros (Hst & _ & Hsz); simpl in *; (done || lia). }
  assert (first_at is_free heap_free 2) as Hfree.
  { exists (Subpicture EMPTY_SUBPICTURE FREE_SUBPICTURE 0 None 0 0 false 0 0 0 0 None).
    split_and!; [done..|]. intros [|[|j]] s' Hj; [| |lia]; intros [= <-]; done. }
  split.
  - by rewrite (create_takes_first_free memalign_ok heap_free DVD_SUBPICTURE 100 2).
  - by rewrite (create_takes_first_free memalign_fails heap_free TEXT_SUBPICTURE 100 2).
Defined.

(** X3. When no destroyed subpicture can be reused as it is and none is
    free, the first destroyed one is taken: its data is freed first, then it
    is prepared with the new block, or, when the allocator gives none, left
    free, empty and without data. *)
Theorem create_recycles_first_destroyed (memalign : Z → Z → option buffer)
    (heap : list subpicture_t) (type : subpicture_type) (size : Z) (p : nat) :
  Forall (λ s, ¬ reusable type size s) heap →
  Forall (λ s, ¬ is_free s) heap →
  first_at is_destroyed heap p →
  vout_CreateSubPicture memalign heap type size
  = match allocated memalign type size with
    | Some b =>
        Created (Some p) (alter (prepared type size b) p heap)
          ([Lock; Free (heap !! p ≫= p_data)] ++ asked_events type size ++ [Unlock])
    | None =>
        Created None (alter emptied p heap)
          ([Lock; Free (heap !! p ≫= p_data)] ++ asked_events type size
           ++ [ErrAllocFailed; Unlock])
    end.
Proof.
  intros Hnone Hnofree Hdest.
  pose proof (look_for_place_spec type size heap 0 None None) as Hspec.
  destruct (look_for_place type size heap 0 None None) as [r|f d] eqn:Hlook.
  { destruct Hspec as (i & _ & Hfirst). by destruct (no_reusable_no_first _ _ _ _ Hnone Hfirst). }
  destruct (scanned_taken _ _ _ _ _ Hlook) as (_ & Htaken).
  destruct f as [f|].
  { destruct (first_at_lookup _ _ _ Htaken) as (s & Hs & Hfs).
    by destruct (Forall_lookup_1 _ _ _ _ Hnofree Hs). }
  destruct d as [d|].
  - destruct Htaken as [_ Hd]. rewrite (first_at_unique _ _ _ _ Hdest Hd).
    by rewrite (create_taken _ _ _ _ _ _ d Hlook eq_refl).
  - destruct Htaken as [_ Hnod].
    destruct (first_at_lookup _ _ _ Hdest) as (s & Hs & Hds).
    by destruct (Forall_lookup_1 _ _ _ _ Hnod Hs).
Qed.

Lemma create_recycles_first_destroyed_witness :
  vout_CreateSubPicture memalign_ok heap_busy DVD_SUBPICTURE 100
  = Created (Some 1%nat) (alter (prepared DVD_SUBPICTURE 100 (Buffer 16384 [0; 0])) 1%nat heap_busy)
      [Lock; Free (Some (Buffer 8192 [7])); Memalign 16 100; Unlock]
  ∧ vout_CreateSubPicture memalign_ok heap_busy (OTHER_SUBPICTURE 7) 100
    = Created None (alter emptied 1%nat heap_busy)
        [Lock; Free (Some (Buffer 8192 [7])); ErrUnknownType (OTHER_SUBPICTURE 7);
         ErrAllocFailed; Unlock].
Proof.
  assert (∀ type, Forall (λ s, ¬ reusable type 100 s) heap_busy) as Hnone.
  { intros type. repeat constructor; intros (Hst & _ & Hsz); simpl in *; (done || lia). }
  assert (Forall (λ s, ¬ is_free s) heap_busy) as Hnofree by (by repeat constructor).
  assert (first_at is_destroyed heap_busy 1) as Hdest.
  { exists (Subpicture DVD_SUBPICTURE DESTROYED_SUBPICTURE 32 None 0 9 false 1 2 8 2
              (Some (Buffer 8192 [7]))).
    split_and!; [done..|]. intros [|j] s' Hj; [|lia]. intros [= <-]. done. }
  split.
  - by rewrite (create_recycles_first_destroyed memalign_ok heap_busy DVD_SUBPICTURE 100 1).
  - by rewrite (create_recycles_first_destroyed memalign_ok heap_busy (OTHER_SUBPICTURE 7) 100 1).
Defined.

(** X4. A call never touches a subpicture that is reserved or ready: it is
    in the heap afterwards as it was, and it is not the one handed back. The
    heap keeps its length. *)
Theorem create_spares_in_use (memalign : Z → Z → option buffer)
    (heap : list subpicture_t) (type : subpicture_type) (size : Z)
    (j : nat) (s : subpicture_t) :
  heap !! j = Some s →
  in_use s →
  cr_heap (vout_CreateSubPicture memalign heap type size) !! j = Some s
  ∧ cr_result (vout_CreateSubPicture memalign heap type size) ≠ Some j
  ∧ length (cr_heap (vout_CreateSubPicture memalign heap type size)) = length heap.
Proof.
  intros Hs Huse.
  assert (∀ (P : subpicture_t → Prop) p,
            (∀ s', P s' → ¬ in_use s') → first_at P heap p → p ≠ j) as Hother.
  { intros P p HP (s' & Hs' & HPs & _) ->. rewrite Hs in Hs'. injection Hs' as <-.
    by apply (HP s). }
  assert (∀ s', is_free s' → ¬ in_use s') as Hfree.
  { unfold is_free, in_use. intros s' -> [?|?]; done. }
  assert (∀ s', is_destroyed s' → ¬ in_use s') as Hdest.
  { unfold is_destroyed, in_use. intros s' -> [?|?]; done. }
  pose proof (look_for_place_spec type size heap 0 None None) as Hspec.
  destruct (look_for_place type size heap 0 None None) as [r|f d] eqn:Hlook.
  - destruct Hspec as (i & -> & Hfirst). simpl.
    assert (i ≠ j) as Hne.
    { apply (Hother (reusable type size)); [|done]. intros s' (Hst & _). by apply Hdest. }
    unfold vout_CreateSubPicture. rewrite Hlook. simpl.
    rewrite list_lookup_alter_ne, length_alter by done. split_and!; [done| |done].
    by intros [= ->].
  - destruct (scanned_taken _ _ _ _ _ Hlook) as (_ & Htaken).
    destruct (match f with Some _ => f | None => d end) as [p|] eqn:Hp.
    + assert (p ≠ j) as Hne.
      { destruct f as [f|]; simplify_eq.
        - by apply (Hother is_free).
        - destruct Htaken as [_ Hd]. by apply (Hother is_destroyed). }
      rewrite (create_taken _ _ _ _ _ _ p Hlook Hp). cbn zeta.
      destruct (allocated memalign type size); simpl;
        rewrite list_lookup_alter_ne, length_alter by done;
        (split_and!; [done| |done]); [by intros [= ->]|done].
    + destruct f, d; simplify_eq.
      unfold vout_CreateSubPicture. rewrite Hlook. simpl. done.
Qed.

Lemma create_spares_in_use_witness :
  cr_heap (vout_CreateSubPicture memalign_ok heap_busy DVD_SUBPICTURE 100) !! 0%nat
  = heap_busy !! 0%nat
  ∧ cr_result (vout_CreateSubPicture memalign_ok heap_busy DVD_SUBPICTURE 100) ≠ Some 0%nat
  ∧ length (cr_heap (vout_CreateSubPicture memalign_ok heap_busy DVD_SUBPICTURE 100))
    = length heap_busy.
Proof.
  apply (create_spares_in_use memalign_ok heap_busy DVD_SUBPICTURE 100 0).
  - reflexivity.
  - by right.
Defined.

(** X5. Destroying a subpicture and then asking for one of its type that is
    no larger never gets to the allocator and never fails: the call hands
    back that subpicture or one before it in the heap, reserved, and it only
    takes and releases the lock. When it is that subpicture, the data and the
    recorded size are the ones it had. *)
Theorem destroy_then_create_reuses (memalign : Z → Z → option buffer)
    (heap : list subpicture_t) (size : Z) (i : nat) (s : subpicture_t) :
  heap !! i = Some s →
  size <= i_size s →
  ∃ j s',
    (j ≤ i)%nat
    ∧ vout_CreateSubPicture memalign
        (<[i := (vout_DestroySubPicture s).1]> heap) (i_type s) size
      = Created (Some j)
          (<[j := s']> (<[i := (vout_DestroySubPicture s).1]> heap))
          [Lock; Unlock]
    ∧ i_status s' = RESERVED_SUBPICTURE
    ∧ i_type s' = i_type s
    ∧ size <= i_size s'
    ∧ (j = i → s' = set_status RESERVED_SUBPICTURE s).
Proof.
  intros Hs Hsize.
  pose proof (lookup_lt_Some _ _ _ Hs) as Hi.
  set (heap' := <[i := (vout_DestroySubPicture s).1]> heap).
  assert (heap' !! i = Some (set_status DESTROYED_SUBPICTURE s)) as Hi'.
  { unfold heap'. by rewrite list_lookup_insert_eq. }
  assert (reusable (i_type s) size (set_status DESTROYED_SUBPICTURE s)) as Hre by done.
  pose proof (look_for_place_spec (i_type s) size heap' 0 None None) as Hspec.
  unfold vout_CreateSubPicture.
  destruct (look_for_place (i_type s) size heap' 0 None None) as [r|f d].
  - destruct Hspec as (j & -> & s0 & Hs0 & (Hst & Hty & Hsz) & Hmin). simpl.
    exists j, (set_status RESERVED_SUBPICTURE s0).
    assert (j ≤ i)%nat as Hle.
    { destruct (decide (j ≤ i)%nat) as [|Hgt]; [done|].
      destruct (Hmin i _ ltac:(lia) Hi' Hre). }
    split_and!; [done| |done..|].
    + by rewrite (alter_lookup_insert _ _ _ _ Hs0).
    + intros ->. rewrite Hi' in Hs0. by injection Hs0 as <-.
  - destruct Hspec as (Hall & _). by destruct (Forall_lookup_1 _ _ _ _ Hall Hi').
Qed.

Lemma destroy_then_create_reuses_witness :
  ∃ j s',
    (j ≤ 0)%nat
    ∧ vout_CreateSubPicture memalign_fails
        (<[0%nat := (vout_DestroySubPicture (reserved_at 7 40)).1]> [reserved_at 7 40])
        DVD_SUBPICTURE 64
      = Created (Some j)
          (<[j := s']> (<[0%nat := (vout_DestroySubPicture (reserved_at 7 40)).1]>
                          [reserved_at 7 40]))
          [Lock; Unlock]
    ∧ i_status s' = RESERVED_SUBPICTURE
    ∧ i_type s' = DVD_SUBPICTURE
    ∧ 64 <= i_size s'
    ∧ (j = 0%nat → s' = set_status RESERVED_SUBPICTURE (reserved_at 7 40)).
Proof.
  apply (destroy_then_create_reuses memalign_fails [reserved_at 7 40] 64 0 (reserved_at 7 40)).
  - reflexivity.
  - simpl. lia.
Defined.

(** ** Placement again *)

(** X6. Displaying changes the line and the status of a subpicture and
    nothing else, and displaying a second time changes nothing more: the line
    is computed from the same height and margin. The second call reports the
    status, which is no longer reserved. *)
Theorem display_twice (m : Z) (p_vout : vout_thread_t) (s : subpicture_t) :
  (vout_DisplaySubPicture m p_vout (vout_DisplaySubPicture m p_vout s).1).1
  = (vout_DisplaySubPicture m p_vout s).1
  ∧ (vout_DisplaySubPicture m p_vout (vout_DisplaySubPicture m p_vout s).1).2
    = [ErrInvalidStatus READY_SUBPICTURE]
  ∧ set_status (i_status s) (set_y (i_y s) (vout_DisplaySubPicture m p_vout s).1) = s.
Proof.
  unfold vout_DisplaySubPicture. cbn [fst snd].
  destruct (m >=? 0) eqn:Hm.
  - destruct (Int.add (i_height s) m <=? Output.i_height (output p_vout)) eqn:Hfit.
    + cbn [i_height set_status set_y i_status]. rewrite Hfit.
      split_and!; [done..|]. by destruct s.
    + cbn [i_height set_status set_y i_status]. rewrite Hfit.
      split_and!; [done..|]. by destruct s.
  - split_and!; [done..|]. by destruct s.
Qed.

(** ** The RLE data again *)

(** X7. A run of [n] pixels of class [c] written as [(n << 2) | c] fits in 16
    bits and is read back as length [n] and class [c]. *)
Theorem rle_encode_then_decode (n c : Z) :
  0 <= n < 16384 → 0 <= c < 4 →
  0 <= Z.lor (Z.shiftl n 2) c < 65536
  ∧ rle_length (Z.lor (Z.shiftl n 2) c) = n
  ∧ rle_color (Z.lor (Z.shiftl n 2) c) = c.
Proof.
  intros Hn Hc. destruct (rle_encode_decode n c) as [Hcol Hlen]; [lia..|].
  split; [|done].
  pose proof (Z.div_mod (Z.lor (Z.shiftl n 2) c) 4 ltac:(lia)) as Hw.
  rewrite <- rle_length_div, <- rle_color_mod, Hcol, Hlen in Hw. lia.
Qed.

Lemma rle_encode_then_decode_witness :
  0 <= Z.lor (Z.shiftl 16383 2) 3 < 65536
  ∧ rle_length (Z.lor (Z.shiftl 16383 2) 3) = 16383
  ∧ rle_color (Z.lor (Z.shiftl 16383 2) 3) = 3.
Proof. apply (rle_encode_then_decode 16383 3); lia. Defined.

(** ** Selection: what a call leaves alone *)

(** What a turn of the loop does to the heap and to the list: nothing, or a
    link set and the subpicture put in front of the list, or the subpicture
    of the turn destroyed. *)
Lemma sort_step_shape d P n v st :
  select_ok d P n v → sort_inv d P n v st →
  (st_heap (sort_body d n st) = st_heap st
   ∧ sel_list (select_step d P v n) = sel_list v)
  ∨ (∃ x i, st_heap (sort_body d n st) = alter (set_next x) i (st_heap st)
            ∧ sel_list (select_step d P v n) = i :: sel_list v
            ∧ i ∉ sel_list v)
  ∨ (∃ s, st_heap st !! n = Some s
          ∧ st_heap (sort_body d n st)
            = <[n := set_status DESTROYED_SUBPICTURE s]> (st_heap st)
          ∧ sel_list (select_step d P v n) = sel_list v).
Proof.
  intros Hok [Hlen Hsl Hch He Hd Hev].
  assert (n ∉ sel_list v) as Hfresh.
  { intros Hin. pose proof (ok_list _ _ _ _ Hok) as Hl.
    rewrite Forall_forall in Hl. specialize (Hl n Hin). simpl in Hl. lia. }
  unfold sort_body, select_step.
  destruct (P !! n) as [s|] eqn:Hs.
  2: { rewrite (lookup_ge_None_2 (st_heap st) n); [by left|].
       rewrite Hlen. by apply lookup_ge_None_1. }
  rewrite (slots_current _ _ _ _ _ Hsl Hs).
  destruct (decide (i_status s = READY_SUBPICTURE)) as [Hready|]; [|by left].
  destruct (decide (i_type s = DVD_SUBPICTURE)) as [Hdvd|].
  2: { right; left. by exists (p_subpic st), n. }
  destruct (d >? i_stop s).
  { right; right. exists s. unfold destroy_at.
    rewrite (slots_current _ _ _ _ _ Hsl Hs). by split_and!. }
  destruct (d <? i_start s); [by left|].
  rewrite (link_registered st n s) by (by eapply slots_current).
  rewrite He.
  destruct (b_ephemer s).
  2: { right; left. by exists (p_subpic st), n. }
  destruct (sel_ephemer v) as [e|] eqn:Hv; [|by left].
  destruct (ok_ephemer _ _ _ _ Hok e Hv) as (_ & Hefresh & old & Hold & _).
  destruct (Hsl e old Hold) as (nx & Hhe & _). rewrite Hold, Hhe.
  cbn [i_start set_next]. rewrite seen_start.
  destruct (i_start s <? i_start old).
  - right; left. exists (p_subpic st), e. split_and!; [|done..].
    unfold register_head, link_at. simpl. by rewrite list_lookup_alter_eq, Hhe.
  - right; left. by exists (p_subpic st), n.
Qed.

Lemma links_kept_link P heap l x i :
  links_kept P heap l → links_kept P (alter (set_next x) i heap) (i :: l).
Proof.
  intros Hk j s s' Hs Hs' [Hne Hj]%not_elem_of_cons.
  rewrite list_lookup_alter_ne in Hs' by done. by apply (Hk j).
Qed.

Lemma links_kept_status P heap l i st s :
  links_kept P heap l → heap !! i = Some s →
  links_kept P (<[i := set_status st s]> heap) l.
Proof.
  intros Hk Hi j s0 s' Hs Hs' Hj. destruct (decide (i = j)) as [<-|Hne].
  - rewrite list_lookup_insert_eq in Hs' by (by eapply lookup_lt_Some).
    injection Hs' as <-. by apply (Hk i s0 s).
  - rewrite list_lookup_insert_ne in Hs' by done. by apply (Hk j).
Qed.

Lemma sort_prefix_links d P n :
  links_kept P (st_heap (sort_prefix d P n)) (sel_list (select d P n)).
Proof.
  induction n as [|n IH].
  - intros j s s' Hs Hs' _. simpl in Hs'. congruence.
  - rewrite select_S, sort_prefix_S.
    destruct (sort_step_shape d P n _ _ (select_is_ok d P n) (sort_prefix_inv d P n))
      as [[-> ->]|[(x & i & -> & -> & _)|(s & Hs & -> & ->)]].
    + done.
    + by apply links_kept_link.
    + by apply links_kept_status.
Qed.

Lemma select_list_NoDup d P n : NoDup (sel_list (select d P n)).
Proof.
  induction n as [|n IH]; [constructor|].
  rewrite select_S.
  destruct (sort_step_shape d P n _ _ (select_is_ok d P n) (sort_prefix_inv d P n))
    as [[_ ->]|[(x & i & _ & -> & Hi)|(s & _ & _ & ->)]]; [done| |done].
  by constructor.
Qed.

(** What the part after the loop does to the heap. *)
Lemma sort_finish_shape (p_vout : vout_thread_t) (d : Z) :
  so_heap (vout_SortSubPictures p_vout d) = st_heap (sort_scan d (p_subpicture p_vout))
  ∨ ∃ e eph,
      sel_ephemer (select d (p_subpicture p_vout) (length (p_subpicture p_vout))) = Some e
      ∧ st_heap (sort_scan d (p_subpicture p_vout)) !! e = Some eph
      ∧ ((so_heap (vout_SortSubPictures p_vout d)
          = <[e := set_status DESTROYED_SUBPICTURE eph]>
              (st_heap (sort_scan d (p_subpicture p_vout)))
          ∧ (outcome d (p_subpicture p_vout)).1
            = sel_list (select d (p_subpicture p_vout) (length (p_subpicture p_vout))))
         ∨ (so_heap (vout_SortSubPictures p_vout d)
            = alter (set_next (p_subpic (sort_scan d (p_subpicture p_vout)))) e
                (st_heap (sort_scan d (p_subpicture p_vout)))
            ∧ (outcome d (p_subpicture p_vout)).1
              = e :: sel_list (select d (p_subpicture p_vout)
                                 (length (p_subpicture p_vout))))).
Proof.
  destruct p_vout as [out ren P]. unfold vout_SortSubPictures. simpl.
  pose proof (sort_scan_state d P) as [Hlen Hsl Hch He Hd Hev].
  pose proof (select_is_ok d P (length P)) as Hok.
  unfold sort_finish, outcome. rewrite He, Hd.
  destruct (sel_ephemer (select d P (length P))) as [e|] eqn:Hv; [|by left].
  destruct (ok_ephemer _ _ _ _ Hok e Hv) as (_ & _ & se & Hse & _).
  destruct (Hsl e se Hse) as (nx & Hhe & _). rewrite Hhe, Hse.
  cbn [i_start set_next]. rewrite seen_start.
  right. exists e, (set_next nx (seen d (length P) e se)). split_and!; [done..|].
  destruct (i_start se <? sel_date (select d P (length P))).
  - left. unfold destroy_at. rewrite Hhe. by simpl.
  - right. by unfold link_at.
Qed.

Lemma sort_links (p_vout : vout_thread_t) (d : Z) :
  links_kept (p_subpicture p_vout) (so_heap (vout_SortSubPictures p_vout d))
    (outcome d (p_subpicture p_vout)).1.
Proof.
  pose proof (sort_prefix_links d (p_subpicture p_vout) (length (p_subpicture p_vout)))
    as Hk.
  destruct (sort_finish_shape p_vout d)
    as [->|(e & eph & Hv & Heph & [[-> ->]|[-> ->]])].
  - unfold outcome.
    destruct (sel_ephemer _) as [e|]; [|done].
    destruct (p_subpicture p_vout !! e) as [se|]; [|done].
    destruct (i_start se <? _); simpl; [done|].
    intros j s s' Hs Hs' [_ Hj]%not_elem_of_cons. by apply (Hk j).
  - by apply links_kept_status.
  - by apply links_kept_link.
Qed.

Lemma shownb_shown d s : shownb d s = true ↔ shown d s.
Proof.
  unfold shownb, shown.
  rewrite andb_true_iff, orb_true_iff, andb_true_iff, negb_true_iff.
  rewrite bool_decide_eq_true, bool_decide_eq_false, Z.leb_le, Z.leb_le. done.
Qed.

Lemma shown_not_expired d s : shown d s → expired d s = false.
Proof.
  intros [_ [Hty|[_ Hstop]]]; unfold expired.
  - rewrite (bool_decide_eq_false_2 (i_type s = _)) by done. by rewrite andb_false_r.
  - destruct (Z.gtb_spec d (i_stop s)); [lia|]. by rewrite andb_false_r.
Qed.

Lemma left_as_status d gone j s :
  i_status (left_as d gone j s)
  = if expired d s || bool_decide (gone = Some j) then DESTROYED_SUBPICTURE else i_status s.
Proof. unfold left_as. by destruct (_ || _). Qed.

Lemma left_as_payload d gone j s : same_payload s (left_as d gone j s).
Proof. unfold left_as, same_payload. by destruct (_ || _). Qed.

Lemma left_as_next d gone j s : p_next (left_as d gone j s) = p_next s.
Proof. unfold left_as. by destruct (_ || _). Qed.

Lemma expired_ready d s :
  expired d s = true →
  i_status s = READY_SUBPICTURE ∧ i_type s = DVD_SUBPICTURE ∧ i_stop s < d.
Proof.
  unfold expired. rewrite !andb_true_iff, !bool_decide_eq_true, Z.gtb_ltb, Z.ltb_lt.
  by intros [[? ?] ?].
Qed.

(** The subpicture at [j] after the call, with its link when it is not in
    the list. *)
Lemma sort_leaves (p_vout : vout_thread_t) (d : Z) (j : nat) (s : subpicture_t) :
  p_subpicture p_vout !! j = Some s →
  ∃ s', so_heap (vout_SortSubPictures p_vout d) !! j = Some s'
        ∧ same_payload s s'
        ∧ i_status s' = i_status (left_as d (outcome d (p_subpicture p_vout)).2 j s)
        ∧ (j ∉ (outcome d (p_subpicture p_vout)).1 →
           s' = left_as d (outcome d (p_subpicture p_vout)).2 j s).
Proof.
  intros Hs. destruct (sort_outcome p_vout d) as (_ & _ & _ & Hheap).
  destruct (Hheap j s Hs) as (nx & Hj).
  exists (set_next nx (left_as d (outcome d (p_subpicture p_vout)).2 j s)).
  split_and!; [done| |done|].
  - apply left_as_payload.
  - intros Hout. pose proof (sort_links p_vout d j s _ Hs Hj Hout) as Hnx.
    simpl in Hnx. subst nx. unfold left_as.
    destruct (_ || _); [|apply set_next_same]. by destruct s.
Qed.

(** X8. The list a call hands back holds each subpicture once at most, and
    holds exactly the subpictures that are ready after the call and are
    either not DVD subpictures or DVD subpictures that have started. *)
Theorem sort_lists_the_ready (p_vout : vout_thread_t) (d : Z) :
  ∃ l,
    subpictures_of (vout_SortSubPictures p_vout d) = Some l
    ∧ NoDup l
    ∧ ∀ j s, p_subpicture p_vout !! j = Some s →
        (j ∈ l
         ↔ i_status <$> so_heap (vout_SortSubPictures p_vout d) !! j = Some READY_SUBPICTURE
           ∧ (i_type s ≠ DVD_SUBPICTURE ∨ i_start s <= d)).
Proof.
  destruct (sort_outcome p_vout d) as (Hwalk & _ & _ & _).
  exists (outcome d (p_subpicture p_vout)).1. split_and!; [done| |].
  - pose proof (select_list_NoDup d (p_subpicture p_vout) (length (p_subpicture p_vout)))
      as Hnd.
    pose proof (select_is_ok d (p_subpicture p_vout) (length (p_subpicture p_vout))) as Hok.
    unfold outcome. destruct (sel_ephemer _) as [e|] eqn:Hv; [|done].
    destruct (ok_ephemer _ _ _ _ Hok e Hv) as (_ & Hfresh & _).
    destruct (p_subpicture p_vout !! e) as [se|]; [|done].
    destruct (i_start se <? _); simpl; [done|]. by constructor.
  - intros j s Hs. destruct (sort_leaves p_vout d j s Hs) as (s' & Hj & _ & Hst & _).
    rewrite Hj. simpl. rewrite Hst, left_as_status, (outcome_list d _ j s Hs).
    split.
    + intros [Hsh Hgone]. rewrite (shown_not_expired d s Hsh).
      rewrite bool_decide_eq_false_2 by done. simpl.
      destruct Hsh as [Hready Hwin]. split; [by rewrite Hready|].
      destruct Hwin as [?|[? _]]; [by left|by right].
    + intros [Hafter Hwin].
      destruct (expired d s) eqn:Hexp; [done|].
      destruct (bool_decide (_ = Some j)) eqn:Hg; [done|]. simpl in Hafter.
      apply bool_decide_eq_false in Hg. split; [|done].
      injection Hafter as Hready. split; [done|].
      destruct (decide (i_type s = DVD_SUBPICTURE)) as [Hdvd|]; [|by left].
      right. destruct Hwin as [?|Hstart]; [done|]. split; [done|].
      unfold expired in Hexp. rewrite !bool_decide_eq_true_2 in Hexp by done.
      simpl in Hexp. rewrite Z.gtb_ltb in Hexp. by apply Z.ltb_ge in Hexp.
Qed.

Lemma sort_lists_the_ready_witness :
  subpictures_of (vout_SortSubPictures (vout_of heap_mixed) 20) = Some [3; 0]%nat
  ∧ (3%nat ∈ [3; 0]%nat
     ↔ i_status <$> so_heap (vout_SortSubPictures (vout_of heap_mixed) 20) !! 3%nat
       = Some READY_SUBPICTURE
       ∧ (i_type (dvd false 10 30) ≠ DVD_SUBPICTURE ∨ i_start (dvd false 10 30) <= 20)).
Proof.
  destruct (sort_lists_the_ready (vout_of heap_mixed) 20) as (l & Hl & _ & Hin).
  vm_compute in Hl. injection Hl as <-.
  split; [reflexivity|]. apply (Hin 3%nat (dvd false 10 30)). reflexivity.
Defined.

(** X9. A call changes nothing of a subpicture but its link and its status;
    the status changes only from ready to destroyed, and only for a DVD
    subpicture; the link changes only for a subpicture of the list. The heap
    keeps its length and the call reports nothing: it destroys ready
    subpictures only. *)
Theorem sort_changes_links_and_status (p_vout : vout_thread_t) (d : Z)
    (j : nat) (s : subpicture_t) :
  p_subpicture p_vout !! j = Some s →
  ∃ l s',
    subpictures_of (vout_SortSubPictures p_vout d) = Some l
    ∧ so_heap (vout_SortSubPictures p_vout d) !! j = Some s'
    ∧ same_payload s s'
    ∧ (i_status s' = i_status s
       ∨ (i_status s = READY_SUBPICTURE ∧ i_type s = DVD_SUBPICTURE
          ∧ i_status s' = DESTROYED_SUBPICTURE))
    ∧ (j ∉ l → p_next s' = p_next s)
    ∧ length (so_heap (vout_SortSubPictures p_vout d)) = length (p_subpicture p_vout)
    ∧ so_events (vout_SortSubPictures p_vout d) = [].
Proof.
  intros Hs. destruct (sort_outcome p_vout d) as (Hwalk & Hev & Hlen & _).
  destruct (sort_leaves p_vout d j s Hs) as (s' & Hj & Hsame & Hst & Hout).
  exists (outcome d (p_subpicture p_vout)).1, s'.
  split_and!; [done..| | |done|done].
  - rewrite Hst, left_as_status.
    destruct (expired d s) eqn:Hexp; simpl.
    { right. by destruct (expired_ready d s Hexp) as (? & ? & _). }
    destruct (bool_decide _) eqn:Hg; [|by left].
    apply bool_decide_eq_true in Hg.
    destruct (outcome_gone _ _ _ Hg) as (_ & se & Hse & (? & ? & _) & _).
    rewrite Hs in Hse. injection Hse as <-. by right.
  - intros Hnot. rewrite (Hout Hnot). apply left_as_next.
Qed.

Lemma sort_changes_links_and_status_witness :
  ∃ l s',
    subpictures_of (vout_SortSubPictures (vout_of heap_mixed) 20) = Some l
    ∧ so_heap (vout_SortSubPictures (vout_of heap_mixed) 20) !! 2%nat = Some s'
    ∧ same_payload (dvd false 0 10) s'
    ∧ (i_status s' = i_status (dvd false 0 10)
       ∨ (i_status (dvd false 0 10) = READY_SUBPICTURE
          ∧ i_type (dvd false 0 10) = DVD_SUBPICTURE
          ∧ i_status s' = DESTROYED_SUBPICTURE))
    ∧ (2%nat ∉ l → p_next s' = p_next (dvd false 0 10))
    ∧ length (so_heap (vout_SortSubPictures (vout_of heap_mixed) 20))
      = length (p_subpicture (vout_of heap_mixed))
    ∧ so_events (vout_SortSubPictures (vout_of heap_mixed) 20) = [].
Proof.
  apply (sort_changes_links_and_status (vout_of heap_mixed) 20 2 (dvd false 0 10)).
  reflexivity.
Defined.

(** X10. A subpicture that is not ready (free, reserved by a producer, or
    destroyed), and a ready DVD subpicture that has not started and has not
    stopped, come out of a call exactly as they went in, link included, and
    are not in the list. *)
Theorem sort_leaves_unready (p_vout : vout_thread_t) (d : Z) (j : nat) (s : subpicture_t) :
  p_subpicture p_vout !! j = Some s →
  i_status s ≠ READY_SUBPICTURE
  ∨ (i_type s = DVD_SUBPICTURE ∧ d < i_start s ∧ d <= i_stop s) →
  ∃ l,
    subpictures_of (vout_SortSubPictures p_vout d) = Some l
    ∧ (j ∉ l)
    ∧ so_heap (vout_SortSubPictures p_vout d) !! j = Some s.
Proof.
  intros Hs Hwhy. destruct (sort_outcome p_vout d) as (Hwalk & _ & _ & _).
  destruct (sort_leaves p_vout d j s Hs) as (s' & Hj & _ & _ & Hout).
  exists (outcome d (p_subpicture p_vout)).1.
  assert (¬ shown d s) as Hnot.
  { intros [Hready Hwin]. destruct Hwhy as [?|(Hdvd & Hearly & _)]; [done|].
    destruct Hwin as [?|[? _]]; [done|lia]. }
  assert (j ∉ (outcome d (p_subpicture p_vout)).1) as Hnin.
  { rewrite (outcome_list d _ j s Hs). by intros [? _]. }
  split_and!; [done..|]. rewrite Hj, (Hout Hnin). f_equal. unfold left_as.
  assert (expired d s = false) as ->.
  { destruct (expired d s) eqn:Hexp; [|done].
    destruct (expired_ready d s Hexp) as (? & ? & ?).
    destruct Hwhy as [?|(_ & _ & ?)]; [done|lia]. }
  rewrite bool_decide_eq_false_2; [done|].
  intros Hg. destruct (outcome_gone _ _ _ Hg) as (_ & se & Hse & Hel & _).
  rewrite Hs in Hse. injection Hse as <-. apply Hnot.
  destruct Hel as (? & ? & ? & _). split; [done|by right].
Qed.

Lemma sort_leaves_unready_witness :
  ∃ l,
    subpictures_of (vout_SortSubPictures (vout_of heap_mixed) 20) = Some l
    ∧ (1%nat ∉ l)
    ∧ so_heap (vout_SortSubPictures (vout_of heap_mixed) 20) !! 1%nat
      = Some (set_status RESERVED_SUBPICTURE (dvd false 0 100)).
Proof.
  apply (sort_leaves_unready (vout_of heap_mixed) 20 1
           (set_status RESERVED_SUBPICTURE (dvd false 0 100))).
  - reflexivity.
  - by left.
Defined.

(** X11. Of the ready subpictures that a call would show, it destroys one at
    most, and that one is an ephemer DVD subpicture: two of them that are
    destroyed after the call are the same. *)
Theorem sort_destroys_one_shown (p_vout : vout_thread_t) (d : Z)
    (j k : nat) (sj sk : subpicture_t) :
  p_subpicture p_vout !! j = Some sj → shown d sj →
  i_status <$> so_heap (vout_SortSubPictures p_vout d) !! j = Some DESTROYED_SUBPICTURE →
  p_subpicture p_vout !! k = Some sk → shown d sk →
  i_status <$> so_heap (vout_SortSubPictures p_vout d) !! k = Some DESTROYED_SUBPICTURE →
  j = k ∧ eligible_ephemer d sj
  ∧ p_ephemer (sort_scan d (p_subpicture p_vout)) = Some j.
Proof.
  assert (∀ i s, p_subpicture p_vout !! i = Some s → shown d s →
            i_status <$> so_heap (vout_SortSubPictures p_vout d) !! i
            = Some DESTROYED_SUBPICTURE →
            (outcome d (p_subpicture p_vout)).2 = Some i) as Hgone.
  { intros i s Hs Hsh Hafter.
    destruct (sort_leaves p_vout d i s Hs) as (s' & Hi & _ & Hst & _).
    rewrite Hi in Hafter. simpl in Hafter. injection Hafter as Hafter.
    rewrite Hst, left_as_status, (shown_not_expired d s Hsh) in Hafter. simpl in Hafter.
    destruct (bool_decide _) eqn:Hg; [by apply bool_decide_eq_true in Hg|].
    destruct Hsh as [Hready _]. congruence. }
  intros Hj Hshj Haj Hk Hshk Hak.
  pose proof (Hgone j sj Hj Hshj Haj) as Hgj.
  pose proof (Hgone k sk Hk Hshk Hak) as Hgk.
  rewrite Hgj in Hgk. injection Hgk as <-.
  destruct (outcome_gone _ _ _ Hgj) as (Hv & se & Hse & Hel & _).
  rewrite Hj in Hse. injection Hse as <-.
  pose proof (sort_scan_state d (p_subpicture p_vout)) as [_ _ _ He _ _].
  split_and!; [done..|]. by rewrite He.
Qed.

Lemma sort_destroys_one_shown_witness :
  0%nat = 0%nat ∧ eligible_ephemer 20 (dvd true 10 20)
  ∧ p_ephemer (sort_scan 20 (p_subpicture (vout_of heap_stale))) = Some 0%nat.
Proof.
  apply (sort_destroys_one_shown (vout_of heap_stale) 20 0 0 (dvd true 10 20) (dvd true 10 20));
    try reflexivity; (split; [reflexivity|right; simpl; lia]).
Defined.

(** ** Selection without ephemer subpictures *)

Lemma select_step_plain d P v n :
  Forall (λ s, b_ephemer s = false) P →
  sel_ephemer (select_step d P v n) = sel_ephemer v
  ∧ sel_list (select_step d P v n)
    = if shown_at d P n then n :: sel_list v else sel_list v.
Proof.
  intros Hplain. unfold select_step, shown_at.
  destruct (P !! n) as [s|] eqn:Hs; simpl; [|done].
  pose proof (Forall_lookup_1 _ _ _ _ Hplain Hs) as Hne. simpl in Hne.
  unfold shownb.
  destruct (decide (i_status s = READY_SUBPICTURE)) as [Hready|Hready].
  2: { by rewrite (bool_decide_eq_false_2 (i_status s = _)) by done. }
  rewrite (bool_decide_eq_true_2 (i_status s = _)) by done. simpl.
  destruct (decide (i_type s = DVD_SUBPICTURE)) as [Hdvd|Hdvd].
  2: { by rewrite (bool_decide_eq_false_2 (i_type s = _)) by done. }
  rewrite (bool_decide_eq_true_2 (i_type s = _)) by done. simpl.
  rewrite Z.gtb_ltb.
  destruct (Z.ltb_spec (i_stop s) d) as [Hlate|Hok].
  { rewrite (proj2 (Z.leb_gt d (i_stop s))) by done. by rewrite andb_false_r. }
  rewrite (proj2 (Z.leb_le d (i_stop s))) by done. rewrite andb_true_r.
  destruct (Z.ltb_spec d (i_start s)) as [Hearly|Hin].
  { by rewrite (proj2 (Z.leb_gt (i_start s) d)) by done. }
  rewrite (proj2 (Z.leb_le (i_start s) d)) by done.
  by rewrite Hne.
Qed.

Lemma select_plain d P n :
  Forall (λ s, b_ephemer s = false) P →
  sel_ephemer (select d P n) = None
  ∧ sel_list (select d P n)
    = reverse (filter (λ j, shown_at d P j = true) (seq 0 n)).
Proof.
  intros Hplain. induction n as [|n [IHe IHl]]; [done|].
  destruct (select_step_plain d P (select d P n) n Hplain) as [He Hl].
  rewrite select_S, seq_S, filter_app, reverse_app, He, Hl, IHe, IHl.
  split; [done|]. rewrite filter_cons, filter_nil. cbn [Nat.add].
  destruct (shown_at d P n) eqn:Hsh.
  - rewrite decide_True by done. reflexivity.
  - rewrite decide_False by done. reflexivity.
Qed.

(** X12. When no subpicture of the heap is ephemer, the list a call hands
    back is made of the subpictures to show (ready, and not DVD or with the
    date between start and stop), each once, the one latest in the heap
    first; the loop keeps no ephemer subpicture and registers dates only. *)
Theorem sort_without_ephemer (p_vout : vout_thread_t) (d : Z) :
  Forall (λ s, b_ephemer s = false) (p_subpicture p_vout) →
  subpictures_of (vout_SortSubPictures p_vout d)
  = Some (reverse (filter (λ j, shown_at d (p_subpicture p_vout) j = true)
                     (seq 0 (length (p_subpicture p_vout)))))
  ∧ p_ephemer (sort_scan d (p_subpicture p_vout)) = None
  ∧ ∀ j s, p_subpicture p_vout !! j = Some s → shown d s →
      i_status <$> so_heap (vout_SortSubPictures p_vout d) !! j = Some READY_SUBPICTURE.
Proof.
  intros Hplain.
  destruct (select_plain d (p_subpicture p_vout) (length (p_subpicture p_vout)) Hplain)
    as [Hnone Hlist].
  destruct (sort_outcome p_vout d) as (Hwalk & _ & _ & _).
  pose proof (sort_scan_state d (p_subpicture p_vout)) as [_ _ _ He _ _].
  assert (outcome d (p_subpicture p_vout)
          = (sel_list (select d (p_subpicture p_vout) (length (p_subpicture p_vout))),
             None)) as Hout.
  { unfold outcome. by rewrite Hnone. }
  rewrite Hout in Hwalk. simpl in Hwalk. rewrite Hlist in Hwalk.
  split_and!; [done|by rewrite He|].
  intros j s Hs Hsh. destruct (sort_leaves p_vout d j s Hs) as (s' & Hj & _ & Hst & _).
  rewrite Hj. simpl. rewrite Hst, left_as_status, Hout, (shown_not_expired d s Hsh).
  simpl. by destruct Hsh as [-> _].
Qed.

Lemma sort_without_ephemer_witness :
  subpictures_of (vout_SortSubPictures (vout_of heap_mixed) 20) = Some [3; 0]%nat
  ∧ p_ephemer (sort_scan 20 (p_subpicture (vout_of heap_mixed))) = None.
Proof.
  destruct (sort_without_ephemer (vout_of heap_mixed) 20) as (Hl & Hnone & _).
  - by repeat constructor.
  - split; [exact Hl|exact Hnone].
Defined.

(** ** Rendering: what is not drawn *)

(** X13. Along a list of subpictures none of which is a DVD subpicture, the
    renderer draws nothing: the picture is as before, and each subpicture of
    the list is reported with its type, in the order of the list. *)
Theorem render_skips_other_types (fuel : nat) (p_vout : vout_thread_t) (cv : canvas)
    (p : option nat) (l : list nat) :
  chain (p_subpicture p_vout) p l →
  (length l ≤ fuel)%nat →
  Forall (λ j, ∀ s, p_subpicture p_vout !! j = Some s → i_type s ≠ DVD_SUBPICTURE) l →
  vout_RenderSubPictures fuel p_vout cv p
  = Some (cv, omap (λ j, ErrUnknownSubpicture ∘ i_type <$> p_subpicture p_vout !! j) l).
Proof.
  intros Hch. revert fuel. induction Hch as [|i s l Hs Hch IH]; intros fuel Hfuel Hall.
  - by destruct fuel.
  - destruct fuel as [|fuel]; simpl in Hfuel; [lia|].
    apply Forall_cons in Hall as [Hi Hall]. specialize (Hi s Hs).
    simpl. rewrite Hs. simpl.
    destruct (i_type s) eqn:Hty; [|done| |]; simpl;
      by rewrite (IH fuel) by (done || lia).
Qed.

Lemma render_skips_other_types_witness :
  vout_RenderSubPictures 2 (vout_of heap_texts) (Canvas (λ _, 0) []) (Some 0%nat)
  = Some (Canvas (λ _, 0) [],
          [ErrUnknownSubpicture TEXT_SUBPICTURE; ErrUnknownSubpicture TEXT_SUBPICTURE]).
Proof.
  apply (render_skips_other_types 2 (vout_of heap_texts) (Canvas (λ _, 0) [])
           (Some 0%nat) [0; 1]%nat).
  - econstructor; [reflexivity|]. econstructor; [reflexivity|]. constructor.
  - simpl. lia.
  - repeat constructor; intros s [= <-]; done.
Defined.

(** ** Rendering: where the unscaled renderer draws *)

Lemma rle_color_cases (w : Z) :
  rle_color w = 0 ∨ rle_color w = 1 ∨ rle_color w = 2 ∨ rle_color w = 3.
Proof.
  rewrite rle_color_mod. pose proof (Z.mod_pos_bound w 4 ltac:(lia)). lia.
Qed.

Lemma memset_outside (dest c n a : Z) (cv : canvas) :
  ¬ (dest <= a < dest + n) → pixels (memset dest c n cv) a = pixels cv a.
Proof.
  intros Hout. simpl.
  destruct (Z.leb_spec dest a); [|done].
  destruct (Z.ltb_spec a (dest + n)); [lia|done].
Qed.

(** A run moves the cursor by its length and draws, if at all, on the
    pixels it covers. *)
Lemma run_i420_covers (p_dest i_y w i_x : Z) (cv : canvas) :
  0 < rle_length w <= i_x → i_x <= Int.max_signed →
  ∃ cv',
    run_i420 p_dest i_y w i_x cv = (i_x - rle_length w, cv')
    ∧ ∀ a, ¬ (p_dest - i_y - i_x <= a < p_dest - i_y - i_x + rle_length w) →
           pixels cv' a = pixels cv a.
Proof.
  intros Hlen Hmax.
  assert (Int.sub i_x (rle_length w) = i_x - rle_length w) as Hsub.
  { apply wrap_in_range. unfold Int.in_range, Int.min_signed, Int.max_signed in *. lia. }
  unfold run_i420. rewrite Hsub.
  destruct (rle_color_cases w) as [-> | [-> | [-> | ->]]]; simpl.
  - by exists cv.
  - eexists. split; [done|]. intros a Ha. apply memset_outside. lia.
  - eexists. split; [done|]. intros a Ha. apply memset_outside. lia.
  - eexists. split; [done|]. intros a Ha. apply memset_outside. lia.
Qed.

Lemma run_lengths_nonneg (ws : list Z) :
  Forall (λ w, 0 < rle_length w) ws → 0 <= run_lengths ws.
Proof. induction 1 as [|w l Hw Hl IH]; simpl; lia. Qed.

Lemma line_i420_covers (p_dest i_y : Z) (ws rest : list Z) :
  ∀ (i_x : Z) (cv : canvas),
    line_data i_x ws → i_x <= Int.max_signed →
    ∃ cv',
      line_i420 p_dest i_y (ws ++ rest) i_x cv = Some (rest, cv')
      ∧ ∀ a, ¬ (p_dest - i_y - i_x <= a < p_dest - i_y) → pixels cv' a = pixels cv a.
Proof.
  induction ws as [|w ws IH]; intros i_x cv [Hpos Hsum] Hmax.
  - simpl in Hsum. subst i_x. exists cv. split; [|done]. by destruct rest.
  - apply Forall_cons in Hpos as [Hw Hpos]. simpl in Hsum.
    pose proof (run_lengths_nonneg ws Hpos) as Hnn.
    destruct (run_i420_covers p_dest i_y w i_x cv) as (cv1 & Hrun & Hcv1); [lia..|].
    destruct (IH (i_x - rle_length w) cv1) as (cv' & Hline & Hcv'); [split; [done|lia]|lia|].
    exists cv'. simpl. rewrite (proj2 (Z.eqb_neq i_x 0)) by lia.
    rewrite Hrun. split; [done|].
    intros a Ha. rewrite Hcv' by lia. apply Hcv1. lia.
Qed.

(** X14. A line of the unscaled renderer whose runs are not empty and add
    up to the width left to draw uses exactly the words of these runs and
    changes no byte of the picture outside the [width] bytes of that line. *)
Theorem line_i420_in_line (p_dest i_y width : Z) (ws rest : list Z) (cv : canvas) :
  line_data width ws →
  width <= Int.max_signed →
  ∃ cv',
    line_i420 p_dest i_y (ws ++ rest) width cv = Some (rest, cv')
    ∧ ∀ a, ¬ (p_dest - i_y - width <= a < p_dest - i_y) → pixels cv' a = pixels cv a.
Proof. intros Hdata Hmax. by apply line_i420_covers. Qed.

Lemma line_i420_in_line_witness :
  ∃ cv',
    line_i420 29 16 ([4; 13] ++ [10; 8]) 4 (Canvas (λ _, 0) []) = Some ([10; 8], cv')
    ∧ ∀ a, ¬ (29 - 16 - 4 <= a < 29 - 16) → pixels cv' a = pixels (Canvas (λ _, 0) []) a.
Proof.
  apply (line_i420_in_line 29 16 4 [4; 13] [10; 8] (Canvas (λ _, 0) [])).
  - split; [|reflexivity]. repeat constructor.
  - unfold Int.max_signed. lia.
Defined.

Lemma lines_i420_covers (out_width p_dest width : Z) (rows : list (list Z)) (rest : list Z) :
  0 < out_width → 0 <= width <= Int.max_signed →
  Forall (line_data width) rows →
  ∀ (fuel : nat) (cv : canvas),
    (length rows ≤ fuel)%nat →
    Z.of_nat (length rows) * out_width <= Int.max_signed →
    ∃ cv',
      lines_i420 fuel out_width p_dest width (Z.of_nat (length rows) * out_width)
        (concat rows ++ rest) cv = Some cv'
      ∧ ∀ a, ¬ in_lines p_dest out_width width (length rows) a →
             pixels cv' a = pixels cv a.
Proof.
  intros Hout Hwidth. induction 1 as [|ws rows Hws Hrows IH]; intros fuel cv Hfuel Hmax.
  - exists cv. split; [|done]. by destruct fuel.
  - destruct fuel as [|fuel]; simpl in Hfuel; [lia|].
    cbn [length] in *. rewrite Nat2Z.inj_succ in *.
    assert (Z.succ (Z.of_nat (length rows)) * out_width ≠ 0) as Hne by nia.
    cbn [lines_i420]. rewrite (proj2 (Z.eqb_neq _ 0) Hne).
    cbn [concat]. rewrite <- app_assoc.
    destruct (line_i420_covers p_dest (Z.succ (Z.of_nat (length rows)) * out_width)
                ws (concat rows ++ rest) width cv Hws ltac:(lia))
      as (cv1 & Hline & Hcv1).
    rewrite Hline. cbn [mbind option_bind].
    assert (Int.sub (Z.succ (Z.of_nat (length rows)) * out_width) out_width
            = Z.of_nat (length rows) * out_width) as ->.
    { unfold Int.sub. rewrite wrap_in_range; [lia|].
      unfold Int.in_range, Int.min_signed, Int.max_signed in *. nia. }
    destruct (IH fuel cv1) as (cv' & Hlines & Hcv'); [lia|nia|].
    exists cv'. split; [done|].
    intros a Ha. rewrite Hcv'.
    + apply Hcv1. intros Hin. apply Ha.
      exists (Z.succ (Z.of_nat (length rows))). split; [lia|]. lia.
    + intros (k & Hk & Hin). apply Ha. exists k. split; [lia|done].
Qed.

(** X15. On an I420, IYUV or YV12 output, with the data of the subpicture
    made of one line of runs for each of its lines, each covering its width
    with runs that are not empty, the renderer ends, reports nothing, and
    changes no byte of the picture outside the rectangle of the subpicture:
    [i_width] bytes from column [i_x] on the lines [i_y] to
    [i_y + i_height - 1]. *)
Theorem render_spu_in_rectangle (fuel : nat) (p_vout : vout_thread_t) (cv : canvas)
    (s : subpicture_t) (base : Z) (rows : list (list Z)) (rest : list Z) :
  Output.i_chroma (output p_vout) = FOURCC_I420
  ∨ Output.i_chroma (output p_vout) = FOURCC_IYUV
  ∨ Output.i_chroma (output p_vout) = FOURCC_YV12 →
  p_data s = Some (Buffer base (concat rows ++ rest)) →
  i_height s = Z.of_nat (length rows) →
  Forall (line_data (i_width s)) rows →
  0 < Output.i_width (output p_vout) →
  i420_in_range (Output.i_width (output p_vout)) s →
  (length rows ≤ fuel)%nat →
  ∃ cv',
    vout_RenderSPU fuel p_vout cv s = (Some cv', [])
    ∧ ∀ a, ¬ in_rectangle (Output.i_width (output p_vout)) s a →
           pixels cv' a = pixels cv a.
Proof.
  intros Hchroma Hdata Hheight Hrows Hout (Hsum & Hprod & Hlines & Hwidth) Hfuel.
  assert (∃ cv',
    lines_i420 fuel (Output.i_width (output p_vout))
      (i_x s + i_width s
       + Int.mul (Output.i_width (output p_vout)) (Int.add (i_y s) (i_height s)))
      (i_width s) (Int.mul (i_height s) (Output.i_width (output p_vout)))
      (concat rows ++ rest) cv = Some cv'
    ∧ ∀ a, ¬ in_rectangle (Output.i_width (output p_vout)) s a →
           pixels cv' a = pixels cv a) as (cv' & Hdraw & Hcv').
  { unfold Int.add, Int.mul.
    rewrite (wrap_in_range _ Hsum), (wrap_in_range _ Hprod), (wrap_in_range _ Hlines).
    rewrite Hheight in *.
    destruct rows as [|ws rows'] eqn:Hr.
    { exists cv. split; [|done]. simpl. by destruct fuel. }
    rewrite <- Hr in *.
    assert (0 <= i_width s <= Int.max_signed) as Hw.
    { split; [|by destruct Hwidth].
      rewrite Hr in Hrows. apply Forall_cons in Hrows as [[Hpos <-] _].
      by apply run_lengths_nonneg. }
    destruct (lines_i420_covers (Output.i_width (output p_vout))
                (i_x s + i_width s
                 + Output.i_width (output p_vout) * (i_y s + Z.of_nat (length rows)))
                (i_width s) rows rest Hout Hw Hrows fuel cv Hfuel)
      as (cv' & Hlines' & Hcv').
    { by destruct Hlines. }
    exists cv'. split; [done|].
    intros a Ha. apply Hcv'. intros (k & Hk & Hin). apply Ha.
    exists (Z.of_nat (length rows) - k),
           (a - ((i_y s + (Z.of_nat (length rows) - k)) * Output.i_width (output p_vout)
                 + i_x s)).
    split; [lia|]. split; [|lia]. nia. }
  exists cv'. split; [|done].
  unfold vout_RenderSPU. rewrite Hdata. cbv zeta.
  change (default [] (buf_words <$> Some (Buffer base (concat rows ++ rest))))
    with (concat rows ++ rest).
  rewrite Hdraw. by destruct Hchroma as [-> | [-> | ->]].
Qed.

Lemma render_spu_in_rectangle_witness :
  ∃ cv',
    vout_RenderSPU 2 vout_8x4 (Canvas (λ _, 0) []) spu_4x2 = (Some cv', [])
    ∧ ∀ a, ¬ in_rectangle (Output.i_width (output vout_8x4)) spu_4x2 a →
           pixels cv' a = pixels (Canvas (λ _, 0) []) a.
Proof.
  apply (render_spu_in_rectangle 2 vout_8x4 (Canvas (λ _, 0) []) spu_4x2 0 rows_4x2 []).
  - by left.
  - reflexivity.
  - reflexivity.
  - repeat constructor.
  - simpl. lia.
  - unfold i420_in_range, Int.in_range, Int.min_signed, Int.max_signed. simpl. lia.
  - simpl. lia.
Defined.

(** ** Rendering: where a scaled line draws *)

Lemma run_rv16_covers (p_dest i_xscale i_yreal w i_x : Z) (cv : canvas) :
  0 < i_xscale → 0 < rle_length w → i_xscale * rle_length w <= i_x →
  i_x <= Int.max_signed →
  ∃ cv',
    run_rv16 p_dest i_xscale i_yreal w i_x cv = (i_x - i_xscale * rle_length w, cv')
    ∧ ∀ a, ¬ (p_dest + i_yreal - 2 * (i_x / 64) <= a < p_dest + i_yreal + 2) →
           pixels cv' a = pixels cv a.
Proof.
  intros Hscale Hlen Hrun Hmax. unfold Int.max_signed in Hmax.
  assert (0 < i_xscale * rle_length w) as Hpos by nia.
  assert (Int.mul i_xscale (rle_length w) = i_xscale * rle_length w) as Hmul.
  { apply wrap_in_range. unfold Int.in_range, Int.min_signed, Int.max_signed. lia. }
  assert (Int.sub i_x (i_xscale * rle_length w) = i_x - i_xscale * rle_length w) as Hsub.
  { apply wrap_in_range. unfold Int.in_range, Int.min_signed, Int.max_signed. lia. }
  assert (0 <= i_x / 64 < 2 ^ 25) as Hq.
  { split; [apply Z.div_pos; lia|apply Z.div_lt_upper_bound; lia]. }
  assert (Int.mul 2 (Int.shr i_x 6) = 2 * (i_x / 64)) as Hshift.
  { unfold Int.mul, Int.shr. rewrite Z.shiftr_div_pow2 by lia. change (2 ^ 6) with 64.
    apply wrap_in_range. unfold Int.in_range, Int.min_signed, Int.max_signed. lia. }
  assert (i_xscale * rle_length w / 64 <= i_x / 64) as Hle.
  { apply Z.div_le_mono; lia. }
  assert (0 <= i_xscale * rle_length w / 64) as Hq' by (apply Z.div_pos; lia).
  unfold run_rv16. rewrite Hmul, Hsub, Hshift.
  rewrite fill_count_pixels by (unfold Int.max_signed; lia).
  destruct (rle_color_cases w) as [-> | [-> | [-> | ->]]]; simpl.
  - by exists cv.
  - eexists. split; [done|]. intros a Ha. apply memset_outside. lia.
  - eexists. split; [done|]. intros a Ha. apply memset_outside. lia.
  - eexists. split; [done|]. intros a Ha. apply memset_outside. lia.
Qed.

Lemma line_rv16_covers (p_dest i_xscale i_yreal : Z) (ws rest : list Z) :
  0 < i_xscale →
  ∀ (cv : canvas),
    Forall (λ w, 0 < rle_length w) ws →
    i_xscale * run_lengths ws <= Int.max_signed →
    ∃ cv',
      line_rv16 (λ w i_x cv, Some (run_rv16 p_dest i_xscale i_yreal w i_x cv))
        (ws ++ rest) (i_xscale * run_lengths ws) cv = Some (rest, cv')
      ∧ ∀ a, ¬ (p_dest + i_yreal - 2 * (i_xscale * run_lengths ws / 64) <= a
                < p_dest + i_yreal + 2) →
             pixels cv' a = pixels cv a.
Proof.
  intros Hscale. induction ws as [|w ws IH]; intros cv Hpos Hmax.
  - simpl. rewrite Z.mul_0_r. exists cv. split; [|done]. by destruct rest.
  - apply Forall_cons in Hpos as [Hw Hpos].
    pose proof (run_lengths_nonneg ws Hpos) as Hnn. cbn [run_lengths foldr] in *.
    fold (run_lengths ws) in *.
    destruct (run_rv16_covers p_dest i_xscale i_yreal w
                (i_xscale * (rle_length w + run_lengths ws)) cv)
      as (cv1 & Hrun & Hcv1); [done|done|nia|done|].
    destruct (IH cv1) as (cv' & Hline & Hcv'); [done|nia|].
    exists cv'. cbn [app line_rv16].
    rewrite (proj2 (Z.eqb_neq _ 0)) by nia.
    rewrite Hrun. cbn [mbind option_bind].
    replace (i_xscale * (rle_length w + run_lengths ws) - i_xscale * rle_length w)
      with (i_xscale * run_lengths ws) by lia.
    split; [done|]. intros a Ha. rewrite Hcv'.
    + apply Hcv1. done.
    + intros Hin. apply Ha.
      assert (i_xscale * run_lengths ws / 64
              <= i_xscale * (rle_length w + run_lengths ws) / 64)
        by (apply Z.div_le_mono; nia).
      lia.
Qed.

(** X16. A line of the scaled renderer drawn on one line of the picture,
    with runs that are not empty and cover the width of the subpicture, uses
    exactly the words of these runs; the bytes it changes are between the
    left end of the scaled line and one pixel (two bytes) past its right
    end, [p_dest + i_yreal], and nowhere else. *)
Theorem line_rv16_in_line (p_dest i_xscale i_yreal width : Z) (ws rest : list Z)
    (cv : canvas) :
  0 < i_xscale →
  line_data width ws →
  i_xscale * width <= Int.max_signed →
  ∃ cv',
    line_rv16 (λ w i_x cv, Some (run_rv16 p_dest i_xscale i_yreal w i_x cv))
      (ws ++ rest) (i_xscale * width) cv = Some (rest, cv')
    ∧ ∀ a, ¬ (p_dest + i_yreal - 2 * (i_xscale * width / 64) <= a
              < p_dest + i_yreal + 2) →
           pixels cv' a = pixels cv a.
Proof.
  intros Hscale [Hpos <-] Hmax. by apply line_rv16_covers.
Qed.

Lemma line_rv16_in_line_witness :
  ∃ cv',
    line_rv16 (λ w i_x cv, Some (run_rv16 4 32 0 w i_x cv))
      ([4; 13] ++ [10; 8]) (32 * 4) (Canvas (λ _, 0) []) = Some ([10; 8], cv')
    ∧ ∀ a, ¬ (4 + 0 - 2 * (32 * 4 / 64) <= a < 4 + 0 + 2) →
           pixels cv' a = pixels (Canvas (λ _, 0) []) a.
Proof.
  apply (line_rv16_in_line 4 32 0 4 [4; 13] [10; 8] (Canvas (λ _, 0) [])).
  - lia.
  - split; [|reflexivity]. repeat constructor.
  - unfold Int.max_signed. lia.
Defined.

(** ** Selection: a second call *)

Lemma walk_chain fuel heap p l : walk fuel heap p = Some l → chain heap p l.
Proof.
  revert p l. induction fuel as [|fuel IH]; intros p l; destruct p as [i|]; simpl.
  - done.
  - intros [= <-]. constructor.
  - destruct (heap !! i) as [s|] eqn:Hs; [|done].
    destruct (walk fuel heap (p_next s)) as [l'|] eqn:Hw; [|done].
    simpl. intros [= <-]. econstructor; [done|]. by apply IH.
  - intros [= <-]. constructor.
Qed.

Lemma chain_head heap p l : chain heap p l → p = head l.
Proof. by destruct 1. Qed.

(** Two heaps in which the same list is chained have the same links along
    it. *)
Lemma chain_same_links h1 h2 p1 p2 l :
  chain h1 p1 l → chain h2 p2 l →
  ∀ j s1 s2, j ∈ l → h1 !! j = Some s1 → h2 !! j = Some s2 → p_next s1 = p_next s2.
Proof.
  intros Hc1. revert p2. induction Hc1 as [|i s l Hs Hc IH]; intros p2 Hc2 j s1 s2 Hj H1 H2.
  - by apply elem_of_nil in Hj.
  - inversion Hc2 as [|i' s' l' Hs' Hc' ]; subst.
    destruct (decide (j = i)) as [->|Hne].
    + rewrite Hs in H1. rewrite Hs' in H2. injection H1 as <-. injection H2 as <-.
      by rewrite (chain_head _ _ _ Hc), (chain_head _ _ _ Hc').
    + apply elem_of_cons in Hj as [?|Hj]; [done|]. by apply (IH _ Hc' j).
Qed.

Lemma outcome_plain d P :
  Forall (λ s, b_ephemer s = false) P →
  outcome d P = (reverse (filter (λ j, shown_at d P j = true) (seq 0 (length P))), None).
Proof.
  intros Hplain. destruct (select_plain d P (length P) Hplain) as [Hnone Hlist].
  unfold outcome. by rewrite Hnone, Hlist.
Qed.

(** X17. When no subpicture of the heap is ephemer, a second call at the
    same date finds nothing left to do: it hands back the same list and
    leaves the heap, links included, as the first call left it. *)
Theorem sort_again_without_ephemer (p_vout : vout_thread_t) (d : Z) :
  Forall (λ s, b_ephemer s = false) (p_subpicture p_vout) →
  subpictures_of (vout_SortSubPictures (after_sort p_vout d) d)
  = subpictures_of (vout_SortSubPictures p_vout d)
  ∧ so_heap (vout_SortSubPictures (after_sort p_vout d) d)
    = so_heap (vout_SortSubPictures p_vout d).
Proof.
  intros Hplain.
  destruct (sort_outcome p_vout d) as (Hwalk1 & _ & Hlen1 & Hheap1).
  destruct (sort_outcome (after_sort p_vout d) d) as (Hwalk2 & _ & Hlen2 & Hheap2).
  cbn [after_sort p_subpicture] in *.
  set (P := p_subpicture p_vout) in *.
  set (P1 := so_heap (vout_SortSubPictures p_vout d)) in *.
  rewrite (outcome_plain d P Hplain) in Hwalk1, Hheap1. cbn [fst snd] in *.
  (* what the first call left of each subpicture *)
  assert (∀ j s1, P1 !! j = Some s1 →
            ∃ s, P !! j = Some s ∧ same_payload s s1
                 ∧ i_status s1 = (if expired d s then DESTROYED_SUBPICTURE else i_status s))
    as Hfirst.
  { intros j s1 Hs1. destruct (P !! j) as [s|] eqn:Hs.
    - exists s. destruct (Hheap1 j s Hs) as (nx & Hj). rewrite Hs1 in Hj.
      injection Hj as ->. split_and!; [done|apply left_as_payload|].
      cbn [i_status set_next]. rewrite left_as_status.
      rewrite (bool_decide_eq_false_2 (None = Some j)) by done. by rewrite orb_false_r.
    - apply lookup_ge_None_1 in Hs. apply lookup_lt_Some in Hs1. lia. }
  assert (∀ j s1, P1 !! j = Some s1 → expired d s1 = false) as Hlive.
  { intros j s1 Hs1. destruct (Hfirst j s1 Hs1) as (s & _ & Hsame & Hst).
    destruct Hsame as (Hty & _ & _ & Hstop & _).
    destruct (expired d s1) eqn:Hexp1; [|done].
    destruct (expired_ready d s1 Hexp1) as (Hready & Hdvd & Hlate).
    destruct (expired d s) eqn:Hexp; [congruence|].
    unfold expired in Hexp. rewrite <- Hst, Hready, <- Hty, Hdvd, <- Hstop in Hexp.
    rewrite !bool_decide_eq_true_2 in Hexp by done. simpl in Hexp.
    rewrite Z.gtb_ltb in Hexp. apply Z.ltb_ge in Hexp. lia. }
  assert (Forall (λ s, b_ephemer s = false) P1) as Hplain1.
  { apply Forall_lookup. intros j s1 Hs1.
    destruct (Hfirst j s1 Hs1) as (s & Hs & (_ & _ & _ & _ & Heph & _) & _).
    rewrite Heph. by apply (Forall_lookup_1 _ _ _ _ Hplain Hs). }
  assert (∀ j, shown_at d P1 j = shown_at d P j) as Hshown.
  { intros j. unfold shown_at. destruct (P1 !! j) as [s1|] eqn:Hs1.
    - destruct (Hfirst j s1 Hs1) as (s & -> & (Hty & _ & Hstart & Hstop & _) & Hst).
      simpl. unfold shownb. rewrite Hty, Hstart, Hstop, Hst.
      destruct (expired d s) eqn:Hexp; [|done].
      destruct (expired_ready d s Hexp) as (Hready & Hdvd & Hlate).
      rewrite Hready, Hdvd. simpl.
      rewrite (proj2 (Z.leb_gt d (i_stop s))) by done. by rewrite andb_false_r.
    - rewrite (lookup_ge_None_2 P j); [done|]. rewrite <- Hlen1. by apply lookup_ge_None_1. }
  rewrite (outcome_plain d P1 Hplain1) in Hwalk2, Hheap2. cbn [fst snd] in *.
  assert (reverse (filter (λ j, shown_at d P1 j = true) (seq 0 (length P1)))
          = reverse (filter (λ j, shown_at d P j = true) (seq 0 (length P)))) as Hsame.
  { rewrite Hlen1. f_equal. apply list_filter_iff. intros j. by rewrite Hshown. }
  rewrite Hsame in Hwalk2. split; [by rewrite Hwalk1, Hwalk2|].
  apply list_eq. intros j.
  destruct (P1 !! j) as [s1|] eqn:Hs1.
  2: { apply lookup_ge_None_2. rewrite Hlen2. by apply lookup_ge_None_1. }
  destruct (Hheap2 j s1 Hs1) as (nx & Hj). rewrite Hj. f_equal.
  unfold left_as. rewrite (Hlive j s1 Hs1).
  rewrite (bool_decide_eq_false_2 (None = Some j)) by done. simpl.
  destruct (decide (j ∈ reverse (filter (λ j, shown_at d P j = true)
                                   (seq 0 (length P))))) as [Hin|Hout].
  - pose proof (chain_same_links _ _ _ _ _ (walk_chain _ _ _ _ Hwalk2)
                  (walk_chain _ _ _ _ Hwalk1) j _ s1 Hin Hj Hs1) as Hnx.
    simpl in Hnx. subst nx. apply set_next_same.
  - pose proof (sort_links (after_sort p_vout d) d j s1 _ Hs1 Hj) as Hnx.
    cbn [after_sort p_subpicture] in Hnx. fold P1 in Hnx.
    rewrite (outcome_plain d P1 Hplain1), Hsame in Hnx.
    specialize (Hnx Hout). simpl in Hnx. subst nx. apply set_next_same.
Qed.

Lemma sort_again_without_ephemer_witness :
  subpictures_of (vout_SortSubPictures (after_sort (vout_of heap_mixed) 20) 20)
  = Some [3; 0]%nat
  ∧ so_heap (vout_SortSubPictures (after_sort (vout_of heap_mixed) 20) 20)
    = so_heap (vout_SortSubPictures (vout_of heap_mixed) 20).
Proof.
  destruct (sort_again_without_ephemer (vout_of heap_mixed) 20) as [Hl Hheap].
  - by repeat constructor.
  - split; [|exact Hheap]. rewrite Hl. reflexivity.
Defined.
